(** * vika_api_server: cache store, rate limiter, tree fetcher and handlers

    A shallow embedding of [backend/python_service/vika_api_server.py].
    The module-level dictionaries [cache] and [rate_limiter] are finite maps
    that every function receives and returns; [time.time()] is an explicit
    argument (an exact rational number of seconds); a raised exception is
    the [Raise] case of [outcome]. *)

From Stdlib Require Import QArith Lqa ZArith Lia String Ascii List.
From Stdlib Require Import Sorted Permutation DecimalString DecimalZ DecimalPos.
From stdpp Require Import base option list sorting gmap strings.

Set Warnings "-register-all".

(** ** Python values, exceptions and outcomes *)

(** The values that reach [get_cache_key] as keyword arguments:
    [None], a [str] or an [int] (the query parameters of the handlers). *)
Inductive pyval : Type :=
  | PyNone
  | PyStr (s : string)
  | PyInt (z : Z).

(** [str(v)], as the f-string [f"{k}={v}"] renders a value. *)
Definition py_str (v : pyval) : string :=
  match v with
  | PyNone => "None"
  | PyStr s => s
  | PyInt z => NilZero.string_of_int (Z.to_int z)
  end.

(** The exceptions the modelled code can raise. [TypeError] stands for the
    failure of [len] or of a subscript on a value of the wrong type (its
    message is not modelled); [OverflowError] is the failure to convert an
    [int] to a [float]; [UpstreamError] is whatever the client library
    raises. *)
Inductive exn : Type :=
  | HTTPException (status_code : Z) (detail : string)
  | ZeroDivisionError
  | OverflowError
  | RecursionError
  | KeyError (key : string)
  | TypeError
  | UpstreamError (msg : string).

(** [str(e)], as the handlers splice it into the detail of a 500 reply. *)
Definition exn_str (e : exn) : string :=
  match e with
  | HTTPException c d => py_str (PyInt c) +:+ ": " +:+ d
  | ZeroDivisionError => "float division by zero"
  | OverflowError => "int too large to convert to float"
  | RecursionError => "maximum recursion depth exceeded"
  | KeyError k => "'" +:+ k +:+ "'"
  | TypeError => "TypeError"
  | UpstreamError m => m
  end.

Inductive outcome (A : Type) : Type :=
  | Ok (a : A)
  | Raise (e : exn).
Arguments Ok {A} a.
Arguments Raise {A} e.

Definition is_ok {A} (o : outcome A) : bool :=
  match o with Ok _ => true | Raise _ => false end.

(** Strict comparison on rationals, for [a - b < c] on timestamps. *)
Definition Qltb (x y : Q) : bool := negb (Qle_bool y x).

(** ** Cache keys *)

Module CacheKey.

(** The keyword arguments of a call, in the order the caller wrote them.
    Python rejects a repeated keyword, so the names are pairwise distinct;
    the theorems assume [NoDup (map fst kw)] where it matters. *)
Definition kwargs : Type := list (string * pyval).

(** [sorted(kwargs.items())]: tuples are ordered by their first component
    (the names differ, so the values are never compared). A stable
    insertion sort by name on code points. *)
Fixpoint sorted_insert (kv : string * pyval) (l : kwargs) : kwargs :=
  match l with
  | [] => [kv]
  | kv' :: l' =>
      if String.leb (fst kv) (fst kv') then kv :: l
      else kv' :: sorted_insert kv l'
  end.

Definition sorted_items (kw : kwargs) : kwargs := foldr sorted_insert [] kw.

Definition key_part (kv : string * pyval) : string :=
  fst kv +:+ "=" +:+ py_str (snd kv).

(** [get_cache_key(operation, **kwargs)] *)
Definition get_cache_key (operation : string) (kw : kwargs) : string :=
  String.concat ":" (operation :: map key_part (sorted_items kw)).

End CacheKey.

Import CacheKey.

(** ** Cache store *)

Module CacheStore.

(** One value of the module-level [cache] dictionary:
    [{'data': ..., 'timestamp': ...}]. *)
Record entry (V : Type) : Type := Entry { data : V; timestamp : Q }.
Arguments Entry {V} data timestamp.
Arguments data {V} e.
Arguments timestamp {V} e.

(** [pattern in key] on Python strings: [pattern] occurs in [key] at some
    offset. *)
Fixpoint contains (pattern key : string) : bool :=
  String.prefix pattern key ||
  match key with
  | EmptyString => false
  | String _ key' => contains pattern key'
  end.

Section Store.
(** [V] is the type of the stored payloads ([Any]). The [None] that
    [get_from_cache] returns for a missing or expired entry is the [None]
    of [option]; the handlers read a stored payload that is itself [None]
    as a miss (see [not_none]). *)
Context {V : Type}.
Implicit Types (c : gmap string (entry V)) (key pattern : string).

(** [get_from_cache(key, max_age)], with [now] the value of
    [time.time()] inside it. *)
Definition get_from_cache (now : Q) key (max_age : Z) c
  : option V * gmap string (entry V) :=
  match c !! key with
  | Some e =>
      if Qltb (now - timestamp e) (inject_Z max_age)
      then (Some (data e), c)
      else (None, delete key c)
  | None => (None, c)
  end.

(** [set_cache(key, data)] *)
Definition set_cache (now : Q) key (d : V) c : gmap string (entry V) :=
  <[key := Entry d now]> c.

(** [clear_cache_pattern(pattern)]: the keys are collected first and
    deleted one by one afterwards; the second component is the count the
    function logs. *)
Definition keys_to_delete pattern c : list string :=
  List.filter (contains pattern) (map fst (map_to_list c)).

Definition clear_cache_pattern pattern c : gmap string (entry V) * nat :=
  let ks := keys_to_delete pattern c in
  (foldl (fun m k => delete k m) c ks, length ks).

End Store.

End CacheStore.

Import CacheStore.

(** ** Rate limiter *)

Module RateLimiter.

(** What [POST /config] stores into [config] ([VikaConfig.dict()]). *)
Record VikaConfig : Type := {
  user_token : string;
  api_base : string;
  rate_limit_qps : Z
}.

(** [config.get('rate_limit_qps', 2)]; [None] is the empty dictionary the
    module starts with. *)
Definition qps_limit_of (config : option VikaConfig) : Z :=
  match config with
  | Some c => rate_limit_qps c
  | None => 2
  end.

Definition rate_limit_detail (qps_limit : Z) : string :=
  "请求频率超限，当前限制: " +:+ py_str (PyInt qps_limit) +:+ " QPS".

(** The list comprehension that drops the timestamps one second old or
    older. *)
Definition prune (current_time : Q) (ts : list Q) : list Q :=
  List.filter (fun t => Qltb (current_time - t) 1) ts.

(** [rate_limit_check(operation)], with [current_time] the value of
    [time.time()]. *)
Definition rate_limit_check (config : option VikaConfig) (current_time : Q)
    (operation : string) (rate_limiter : gmap string (list Q))
  : outcome unit * gmap string (list Q) :=
  let qps_limit := qps_limit_of config in
  let rl1 :=
    match rate_limiter !! operation with
    | None => <[operation := []]> rate_limiter
    | Some _ => rate_limiter
    end in
  let window := prune current_time (default [] (rl1 !! operation)) in
  let rl2 := <[operation := window]> rl1 in
  if (qps_limit <=? Z.of_nat (length window))%Z
  then (Raise (HTTPException 429 (rate_limit_detail qps_limit)), rl2)
  else (Ok tt, <[operation := (window ++ [current_time])%list]> rl2).

End RateLimiter.

Import RateLimiter.

(** ** Structured data *)

(** The dictionaries and lists the service builds and returns (what
    FastAPI serialises as JSON). A dictionary keeps its insertion order. *)
Inductive json : Type :=
  | JNone
  | JBool (b : bool)
  | JInt (z : Z)
  | JStr (s : string)
  | JList (l : list json)
  | JDict (d : list (string * json)).

(** [d.get(k)] on the items of a dictionary. *)
Fixpoint dict_get (k : string) (d : list (string * json)) : option json :=
  match d with
  | [] => None
  | (k', v) :: d' => if String.eqb k k' then Some v else dict_get k d'
  end.

(** [d[k] = v]: an existing key keeps its position, a new one goes last. *)
Fixpoint dict_set (k : string) (v : json) (d : list (string * json))
  : list (string * json) :=
  match d with
  | [] => [(k, v)]
  | (k', v') :: d' =>
      if String.eqb k k' then (k, v) :: d' else (k', v') :: dict_set k v d'
  end.

(** ** Tree fetcher *)

Module TreeFetcher.

(** A node object of the client library, by the attributes the fetcher
    reads. *)
Record Node : Type := {
  node_id : string;
  node_name : string;
  node_type : string;
  node_icon : string
}.

(** What [space.nodes.aget] returns. [children] is [None] when the attribute
    is missing or is not a list: [len(folder_details.children)] raises then. *)
Record FolderDetails : Type := { children : option (list Node) }.

(** The effects of a fetch the claims talk about, in program order. A
    sleep carries the exact value of the double it is called with. *)
Inductive event : Type :=
  | EvSleep (delay : Q)
  | EvAget (id : string).

(** A computation that logs events and may raise. *)
Definition M (A : Type) : Type := list event * outcome A.

Definition ret {A} (a : A) : M A := ([], Ok a).
Definition raise {A} (e : exn) : M A := ([], Raise e).
Definition emit (ev : event) : M unit := ([ev], Ok tt).
Definition bind {A B} (m : M A) (k : A -> M B) : M B :=
  match m with
  | (tr, Raise e) => (tr, Raise e)
  | (tr, Ok a) => let (tr', r) := k a in ((tr ++ tr')%list, r)
  end.
Definition lift {A} (o : outcome A) : M A := ([], o).

Notation "x <~ m ;; k" := (bind m (fun x => k))
  (at level 100, m at next level, right associativity).
Notation "m ;;; k" := (bind m (fun _ => k))
  (at level 100, right associativity).

(** The integer nearest to [n / d], for [0 < d]; of two equally near
    ones, the even one. *)
Definition round_half_even (n d : Z) : Z :=
  let q := (n / d)%Z in
  match (2 * (n mod d) ?= d)%Z with
  | Lt => q
  | Eq => if Z.even q then q else (q + 1)%Z
  | Gt => (q + 1)%Z
  end.

(** [float(n)] for an [int], as the division converts its right operand:
    [n] rounded to 53 significant bits, which is again an integer, and
    [OverflowError] when the rounded value is beyond the largest double,
    [2^1024 - 2^971]. *)
Definition float_of_int (n : Z) : outcome Z :=
  let a := Z.abs n in
  let e := Z.max 0 (Z.log2 a - 52) in
  let m := round_half_even a (2 ^ e) in
  if (2 ^ 1024 <=? m * 2 ^ e)%Z then Raise OverflowError
  else Ok (Z.sgn n * (m * 2 ^ e))%Z.

(** [1.0 / b] for a double [b] that is a non-zero integer: the double
    nearest to the quotient, by its exact value. The quotient has 53
    significant bits, fewer where its exponent would fall below the
    smallest one, [-1074]. *)
Definition float_inv (b : Z) : Q :=
  let a := Z.abs b in
  let l := Z.log2 a in
  let k := if (2 ^ l <? a)%Z then (- l - 1)%Z else (- l)%Z in
  let e := Z.max (k - 52) (-1074) in
  let m := round_half_even (2 ^ (- e)) a in
  Qred (Qmake (Z.sgn b * m) (Z.to_pos (2 ^ (- e)))).

(** [1.0 / qps_limit]: the [int] is converted first, then the divisor is
    tested, then the doubles are divided. *)
Definition py_truediv_one (qps_limit : Z) : outcome Q :=
  match float_of_int qps_limit with
  | Raise e => Raise e
  | Ok b =>
      if (b =? 0)%Z then Raise ZeroDivisionError else Ok (float_inv b)
  end.

Section Fetch.
(** [space.nodes.aget(node_id)] on the space as it is during the request:
    the detail record of a folder, or the exception the client raises. *)
Variable aget : string -> outcome FolderDetails.
Variable config : option VikaConfig.

Definition node_dict (node : Node) : list (string * json) :=
  [("id", JStr (node_id node)); ("name", JStr (node_name node));
   ("type", JStr (node_type node)); ("icon", JStr (node_icon node));
   ("children", JList [])].

(** The courtesy delay before a folder's detail fetch. *)
Definition throttle : M unit :=
  let qps_limit := qps_limit_of config in
  if (0 <? qps_limit)%Z then
    delay <~ lift (py_truediv_one qps_limit) ;;
    emit (EvSleep delay)
  else ret tt.

(** The body of the [for node in nodes] loop; [recurse] is the recursive
    call on the children of a folder. *)
Definition fetch_node (recurse : list Node -> M (list json)) (node : Node)
  : M json :=
  let d := node_dict node in
  if String.eqb (node_type node) "Folder" then
    throttle ;;;
    emit (EvAget (node_id node)) ;;;
    folder_details <~ lift (aget (node_id node)) ;;
    match children folder_details with
    | None => raise TypeError
    | Some [] => ret (JDict d)
    | Some cs =>
        children_dicts <~ recurse cs ;;
        ret (JDict (dict_set "children" (JList children_dicts) d))
    end
  else ret (JDict d).

(** The loop: [result_list.append(node_dict)] for each node in turn. *)
Fixpoint fetch_loop (body : Node -> M json) (nodes : list Node)
  : M (list json) :=
  match nodes with
  | [] => ret []
  | node :: rest =>
      d <~ body node ;;
      ds <~ fetch_loop body rest ;;
      ret (d :: ds)
  end.

(** [_fetch_children_recursively(space, nodes)]. [depth] is the number of
    nested calls the interpreter still allows; the call that exceeds it
    raises [RecursionError]. *)
Fixpoint _fetch_children_recursively (depth : nat) (nodes : list Node)
  : M (list json) :=
  match depth with
  | O => raise RecursionError
  | S depth' =>
      fetch_loop (fetch_node (_fetch_children_recursively depth')) nodes
  end.

End Fetch.

End TreeFetcher.

Import TreeFetcher.

(** ** Request handlers *)

Module Handlers.

(** The module-level state of the service. [vika_client] records whether
    the global client is set ([vika_client is not None]). *)
Record server : Type := Server {
  vika_client : bool;
  config : option VikaConfig;
  cache : gmap string (entry json);
  rate_limiter : gmap string (list Q)
}.

Definition with_cache (c : gmap string (entry json)) (s : server) : server :=
  Server (vika_client s) (config s) c (rate_limiter s).

Definition with_rate_limiter (rl : gmap string (list Q)) (s : server)
  : server :=
  Server (vika_client s) (config s) (cache s) rl.

(** The client library, as the handlers use it. [U] is the state of the
    remote platform: writes change it, reads do not. [RecordT] is the
    library's record object. *)
Class Vika (U RecordT : Type) : Type := {
  to_dict : RecordT -> json;
  records_acreate : U -> json -> json -> outcome (list RecordT) * U;
  records_aupdate : U -> json -> json -> outcome (list RecordT) * U;
  records_adelete : U -> json -> json -> outcome json * U;
  records_aall : U -> string -> list (string * pyval) -> outcome (list RecordT);
  nodes_aall : U -> string -> outcome (list Node);
  nodes_aget : U -> string -> string -> outcome FolderDetails;
  (** [str] of a value that is not [None], a string, a number or a
      boolean (a list or a dictionary), as Python prints it. *)
  py_repr : json -> string
}.

(** The [Depends(get_vika_client)] dependency. *)
Definition get_vika_client (s : server) : outcome unit :=
  if vika_client s then Ok tt
  else Raise (HTTPException 500 "维格表客户端未初始化").

(** Both dependencies of a handler, in the order of its signature: the
    client first, then the admission check, which is not reached when the
    client is missing. *)
Definition dependencies (now : Q) (operation : string) (s : server)
  : outcome unit * server :=
  match get_vika_client s with
  | Raise e => (Raise e, s)
  | Ok _ =>
      let (adm, rl) :=
        rate_limit_check (config s) now operation (rate_limiter s) in
      (adm, with_rate_limiter rl s)
  end.

(** [raise HTTPException(status_code=500, detail=f"{what}: {str(e)}")] *)
Definition http500 (what : string) (e : exn) : exn :=
  HTTPException 500 (what +:+ ": " +:+ exn_str e).

Definition success (payload : json) : json :=
  JDict [("success", JBool true); ("data", payload)].

Definition success_cached (payload : json) (from_cache : bool) : json :=
  JDict [("success", JBool true); ("data", payload);
         ("from_cache", JBool from_cache)].

(** [cached_result is not None] *)
Definition not_none (o : option json) : option json :=
  match o with
  | Some JNone => None
  | _ => o
  end.

Definition opt_str (o : option string) : pyval :=
  match o with Some s => PyStr s | None => PyNone end.

Definition opt_int (o : option Z) : pyval :=
  match o with Some z => PyInt z | None => PyNone end.

(** A query parameter is passed on only when it is truthy. *)
Definition truthy (v : pyval) : bool :=
  match v with
  | PyNone => false
  | PyStr s => negb (String.eqb s "")
  | PyInt z => negb (z =? 0)%Z
  end.

Section WithClient.
Context {U RecordT : Type} `{!Vika U RecordT}.

(** [POST /records]. [now] is the time of the admission check. *)
Definition create_records (now : Q) (operation : string)
    (datasheet_id : string) (records : list (list (string * json)))
    (s : server) (u : U) : outcome json * server * U :=
  match dependencies now operation s with
  | (Raise e, s1) => (Raise e, s1, u)
  | (Ok _, s1) =>
      let records_data := map JDict records in
      match records_acreate u (JStr datasheet_id) (JList records_data) with
      | (Raise e, u') => (Raise (http500 "创建记录失败" e), s1, u')
      | (Ok result, u') =>
          let c := fst (clear_cache_pattern ("records:" +:+ datasheet_id)
                          (cache s1)) in
          (Ok (success (JList (map to_dict result))), with_cache c s1, u')
      end
  end.

Definition records_cache_key (datasheet_id : string)
    (view_id : option string) (page_size : option Z)
    (page_token filter_formula : option string) : string :=
  get_cache_key "records"
    [("datasheet_id", PyStr datasheet_id); ("view_id", opt_str view_id);
     ("page_size", opt_int page_size); ("page_token", opt_str page_token);
     ("filter_formula", opt_str filter_formula)].

Definition query_params (view_id : option string) (page_size : option Z)
    (page_token filter_formula : option string)
  : list (string * pyval) :=
  List.filter (fun kv => truthy (snd kv))
    [("view_id", opt_str view_id); ("page_size", opt_int page_size);
     ("page_token", opt_str page_token);
     ("filter_by_formula", opt_str filter_formula)].

(** [GET /records/{datasheet_id}]. [now] is the time of the admission
    check, [t_read] that of the cache lookup and [t_store] that of the
    cache store after the upstream call. *)
Definition get_records (now t_read t_store : Q) (operation : string)
    (datasheet_id : string) (view_id : option string)
    (page_size : option Z) (page_token filter_formula : option string)
    (s : server) (u : U) : outcome json * server :=
  match dependencies now operation s with
  | (Raise e, s1) => (Raise e, s1)
  | (Ok _, s1) =>
      let cache_key :=
        records_cache_key datasheet_id view_id page_size page_token
          filter_formula in
      let (cached_result, c1) :=
        get_from_cache t_read cache_key 300 (cache s1) in
      match not_none cached_result with
      | Some v => (Ok (success_cached v true), with_cache c1 s1)
      | None =>
          match records_aall u datasheet_id
                  (query_params view_id page_size page_token
                     filter_formula) with
          | Raise e => (Raise (http500 "获取记录失败" e), with_cache c1 s1)
          | Ok records =>
              let result := JList (map to_dict records) in
              (Ok (success_cached result false),
               with_cache (set_cache t_store cache_key result c1) s1)
          end
      end
  end.

(** [GET /spaces/{space_id}/datasheets]. [depth] bounds the nesting of
    the recursive fetch as the interpreter does. The trace of the fetch
    is returned with the reply. *)
Definition get_datasheets (now t_read t_store : Q) (depth : nat)
    (operation : string) (space_id : string) (s : server) (u : U)
  : list event * outcome json * server :=
  match dependencies now operation s with
  | (Raise e, s1) => ([], Raise e, s1)
  | (Ok _, s1) =>
      let cache_key :=
        get_cache_key "full_nodes_tree" [("space_id", PyStr space_id)] in
      let (cached_result, c1) :=
        get_from_cache t_read cache_key 3600 (cache s1) in
      match not_none cached_result with
      | Some v => ([], Ok (success_cached v true), with_cache c1 s1)
      | None =>
          match nodes_aall u space_id with
          | Raise e =>
              ([], Raise (http500 "获取数据表列表失败" e), with_cache c1 s1)
          | Ok top_level_nodes =>
              match _fetch_children_recursively (nodes_aget u space_id)
                      (config s1) depth top_level_nodes with
              | (tr, Raise e) =>
                  (tr, Raise (http500 "获取数据表列表失败" e),
                   with_cache c1 s1)
              | (tr, Ok result_data) =>
                  (tr, Ok (success_cached (JList result_data) false),
                   with_cache
                     (set_cache t_store cache_key (JList result_data) c1)
                     s1)
              end
          end
      end
  end.

(** [op_data[k]]: [KeyError] on a dictionary without the key,
    [TypeError] on anything that is not a dictionary. *)
Definition subscript (d : json) (k : string) : outcome json :=
  match d with
  | JDict items =>
      match dict_get k items with
      | Some v => Ok v
      | None => Raise (KeyError k)
      end
  | _ => Raise TypeError
  end.

(** [op_type == name] *)
Definition op_type_is (op_type : option json) (name : string) : bool :=
  match op_type with
  | Some (JStr s) => String.eqb s name
  | _ => false
  end.

(** [f"{op_type}"] *)
Definition op_type_str (op_type : option json) : string :=
  match op_type with
  | None | Some JNone => "None"
  | Some (JBool true) => "True"
  | Some (JBool false) => "False"
  | Some (JInt z) => py_str (PyInt z)
  | Some (JStr s) => s
  | Some v => py_repr v
  end.

Definition item_success (payload : json) : json :=
  JDict [("success", JBool true); ("data", payload)].

Definition item_failure (msg : string) : json :=
  JDict [("success", JBool false); ("error", JStr msg)].

(** The body of the inner [try] for one operation: the entry it appends
    to [results], or the exception it raises. *)
Definition batch_try (operation : list (string * json)) (u : U)
  : outcome json * U :=
  let op_type := dict_get "type" operation in
  let op_data := default (JDict []) (dict_get "data" operation) in
  if op_type_is op_type "create_record" then
    match subscript op_data "datasheet_id" with
    | Raise e => (Raise e, u)
    | Ok ds =>
        match subscript op_data "records" with
        | Raise e => (Raise e, u)
        | Ok recs =>
            match records_acreate u ds recs with
            | (Raise e, u') => (Raise e, u')
            | (Ok result, u') =>
                (Ok (item_success (JList (map to_dict result))), u')
            end
        end
    end
  else if op_type_is op_type "update_record" then
    match subscript op_data "datasheet_id" with
    | Raise e => (Raise e, u)
    | Ok ds =>
        match subscript op_data "records" with
        | Raise e => (Raise e, u)
        | Ok recs =>
            match records_aupdate u ds recs with
            | (Raise e, u') => (Raise e, u')
            | (Ok result, u') =>
                (Ok (item_success (JList (map to_dict result))), u')
            end
        end
    end
  else if op_type_is op_type "delete_record" then
    match subscript op_data "datasheet_id" with
    | Raise e => (Raise e, u)
    | Ok ds =>
        match subscript op_data "record_ids" with
        | Raise e => (Raise e, u)
        | Ok ids =>
            match records_adelete u ds ids with
            | (Raise e, u') => (Raise e, u')
            | (Ok result, u') => (Ok (item_success result), u')
            end
        end
    end
  else
    (Ok (item_failure ("不支持的操作类型: " +:+ op_type_str op_type)), u).

(** One turn of the loop: the inner [except] turns an exception into a
    failure entry. *)
Definition batch_item (operation : list (string * json)) (u : U)
  : json * U :=
  match batch_try operation u with
  | (Ok r, u') => (r, u')
  | (Raise e, u') => (item_failure (exn_str e), u')
  end.



End WithClient.

End Handlers.

Import Handlers.

(** * Specification vocabulary *)

(** No window holds more than [q] timestamps. *)
Definition bounded (q : Z) (rl : gmap string (list Q)) : Prop :=
  forall op w, rl !! op = Some w -> (Z.of_nat (length w) <= q)%Z.

(** The order [sorted] puts the items in. *)
Definition key_le (kv1 kv2 : string * pyval) : Prop :=
  String.le (fst kv1) (fst kv2).

(** [kwargs[k] = v] on the items, for a name that is among them. *)
Definition set_value (k : string) (v : pyval) (kv : string * pyval)
  : string * pyval :=
  if String.eqb (fst kv) k then (k, v) else kv.

(** What [":".join] puts after an element that [ys] follows. *)
Definition join_tail (sep : string) (ys : list string) : string :=
  match ys with
  | [] => ""
  | _ => sep +:+ String.concat sep ys
  end.

(** The dictionary built for [n], with [kids_out] under ["children"]. *)
Definition tree_node (n : Node) (kids_out : list json) : json :=
  JDict [("id", JStr (node_id n)); ("name", JStr (node_name n));
         ("type", JStr (node_type n)); ("icon", JStr (node_icon n));
         ("children", JList kids_out)].

Definition is_sleep (ev : event) : bool :=
  match ev with EvSleep _ => true | EvAget _ => false end.

Definition is_aget (ev : event) : bool := negb (is_sleep ev).

Definition agets (tr : list event) : list event := List.filter is_aget tr.

(** The least quota the delay cannot be computed for: the first integer
    that rounds to [2^1024], beyond the largest double. *)
Definition float_overflow_at : Z := 2 ^ 1024 - 2 ^ 970.

(** Same outcome and same detail fetches, whatever the delays. *)
Definition sim {A} (m1 m2 : M A) : Prop :=
  snd m1 = snd m2 /\ agets (fst m1) = agets (fst m2).

Section TreeSpec.
Variable aget : string -> outcome FolderDetails.

(** The nodes a traversal from [nodes] meets: the nodes themselves and,
    below every folder whose detail fetch succeeds, its children. *)
Inductive reach : list Node -> Node -> Prop :=
  | reach_here nodes n : n ∈ nodes -> reach nodes n
  | reach_down nodes m fd kids n :
      m ∈ nodes -> node_type m = "Folder" ->
      aget (node_id m) = Ok fd -> children fd = Some kids ->
      reach kids n -> reach nodes n.

(** A hierarchy that is finite below [nodes] and whose folders all
    answer with a list of children. *)
Inductive finite_hierarchy : list Node -> Prop :=
  | fh_nil : finite_hierarchy []
  | fh_leaf n ns :
      node_type n <> "Folder" -> finite_hierarchy ns ->
      finite_hierarchy (n :: ns)
  | fh_folder n ns fd kids :
      node_type n = "Folder" ->
      aget (node_id n) = Ok fd -> children fd = Some kids ->
      finite_hierarchy kids -> finite_hierarchy ns ->
      finite_hierarchy (n :: ns).

(** What the fetcher returns for [n], [depth] being the nesting left for
    the call on its children. *)
Definition node_result (config : option VikaConfig) (depth : nat)
    (n : Node) (o : json) : Prop :=
  exists kids_out,
    o = tree_node n kids_out
    /\ if String.eqb (node_type n) "Folder"
       then exists fd kids,
              aget (node_id n) = Ok fd /\ children fd = Some kids
              /\ match kids with
                 | [] => kids_out = []
                 | _ => exists tr,
                          _fetch_children_recursively aget config depth kids
                          = (tr, Ok kids_out)
                 end
       else kids_out = [].

End TreeSpec.

(** * Example data *)

(** A small space: folder [f1] holds folder [f2] and a datasheet, folder
    [f2] is empty, and every other detail fetch fails. *)
Definition folder (i : string) : Node :=
  {| node_id := i; node_name := i; node_type := "Folder"; node_icon := "" |}.

Definition sheet (i : string) : Node :=
  {| node_id := i; node_name := i; node_type := "Datasheet";
     node_icon := "" |}.

Definition demo_space (i : string) : outcome FolderDetails :=
  if String.eqb i "f1" then Ok {| children := Some [folder "f2"; sheet "d1"] |}
  else if String.eqb i "f2" then Ok {| children := Some [] |}
  else Raise (UpstreamError "node not found").

Definition quota (q : Z) : option VikaConfig :=
  Some {| user_token := "token"; api_base := "https://api.vika.cn/fusion/v1";
          rate_limit_qps := q |}.

(** A one-sheet platform for examples: the state is the list of the
    records of the sheet, a create appends, an update answers with the
    records it was given, a list read returns them all. *)
#[local] Instance demo_vika : Vika (list json) json := {|
  to_dict r := r;
  records_acreate u _ recs :=
    match recs with
    | JList l => (Ok l, (u ++ l)%list)
    | _ => (Raise TypeError, u)
    end;
  records_aupdate u _ recs :=
    match recs with
    | JList l => (Ok l, u)
    | _ => (Raise TypeError, u)
    end;
  records_adelete u _ _ := (Raise (UpstreamError "record not found"), u);
  records_aall u _ _ := Ok u;
  nodes_aall _ _ := Ok [folder "f1"; folder "f3"];
  nodes_aget _ _ := demo_space;
  py_repr _ := "[...]"
|}.

Definition dst1_list_key : string :=
  "records:datasheet_id=dst1:filter_formula=None:page_size=100:page_token=None:view_id=None".



(** * Further operations *)

(** ** Runs of the rate limiter *)

(** One call of a run: the admission check at time [fst call] for the
    operation [snd call], on the limiter [fst st]; [snd st] logs the calls
    that were admitted, in order. *)
Definition check_step (config : option VikaConfig)
    (st : gmap string (list Q) * list (Q * string)) (call : Q * string)
  : gmap string (list Q) * list (Q * string) :=
  let (r, rl) := rate_limit_check config (fst call) (snd call) (fst st) in
  (rl, if is_ok r then (snd st ++ [call])%list else snd st).

(** The service from its start: the limiter is empty and nothing was
    admitted yet. *)
Definition run_checks (config : option VikaConfig) (calls : list (Q * string))
  : gmap string (list Q) * list (Q * string) :=
  foldl (check_step config) (∅, []) calls.

(** The times at which [op] was admitted. *)
Definition admitted_times (op : string) (log : list (Q * string)) : list Q :=
  map fst (List.filter (fun c => String.eqb (snd c) op) log).

(** The clock does not go back: every call is at or after the one before,
    the first at or after [T]. *)
Fixpoint nondecreasing_from (T : Q) (calls : list (Q * string)) : Prop :=
  match calls with
  | [] => True
  | c :: rest => (T <= fst c)%Q /\ nondecreasing_from (fst c) rest
  end.

(** The time of the last call, [T] when there is none. *)
Definition last_time (T : Q) (calls : list (Q * string)) : Q :=
  foldl (fun _ c => fst c) T calls.

(** What a run keeps: the windows are bounded and, from time [T] on, the
    fresh part of every window is the fresh part of the admitted times. *)
Definition run_inv (cfg : option VikaConfig) (T : Q)
    (st : gmap string (list Q) * list (Q * string)) : Prop :=
  bounded (qps_limit_of cfg) (fst st)
  /\ forall op t, (T <= t)%Q ->
       prune t (default [] (fst st !! op)) = prune t (admitted_times op (snd st)).

(** ** Cache maintenance endpoints *)

(** [key.split(':')[0]]: the part of the key before its first colon. *)
Fixpoint split_head (s : string) : string :=
  match s with
  | EmptyString => EmptyString
  | String c s' =>
      if Ascii.eqb c ":"%char then EmptyString else String c (split_head s')
  end.

(** [size_by_type[cache_type] = size_by_type.get(cache_type, 0) + 1] *)
Definition count_type (size_by_type : gmap string nat) (key : string)
  : gmap string nat :=
  let cache_type := split_head key in
  <[cache_type := (default 0%nat (size_by_type !! cache_type) + 1)%nat]>
    size_by_type.

(** The [data] of the reply of [GET /cache/stats]. *)
Record CacheStats : Type := {
  total_size : nat;
  size_by_type : gmap string nat;
  rate_limiter_stats : gmap string nat
}.

(** [cache_stats()]; the loop runs over the keys of the cache. *)
Definition cache_stats (s : server) : CacheStats :=
  {| total_size := size (cache s);
     size_by_type := foldl count_type ∅ (map fst (map_to_list (cache s)));
     rate_limiter_stats := length <$> rate_limiter s |}.

(** [DELETE /cache]: [if pattern:] is false for a missing and for an empty
    pattern. The endpoint has no dependency. *)
Definition clear_cache (pattern : option string) (s : server)
  : outcome json * server :=
  match pattern with
  | Some p =>
      if String.eqb p "" then
        (Ok (JDict [("success", JBool true); ("message", JStr "已清除所有缓存")]),
         with_cache ∅ s)
      else
        (Ok (JDict [("success", JBool true);
                    ("message", JStr ("已清除匹配模式 '" +:+ p +:+ "' 的缓存"))]),
         with_cache (fst (clear_cache_pattern p (cache s))) s)
  | None =>
      (Ok (JDict [("success", JBool true); ("message", JStr "已清除所有缓存")]),
       with_cache ∅ s)
  end.

(** The number of [keys] whose part before the first colon is [ty]. *)
Definition keys_of_type (ty : string) (keys : list string) : nat :=
  length (List.filter (fun k => String.eqb (split_head k) ty) keys).

Definition sum_counts (m : gmap string nat) : nat :=
  map_fold (fun _ n acc => (n + acc)%nat) 0%nat m.

(** ** More request handlers *)

(** The reads of the client library that the handlers above do not use:
    [datasheet.records.aget], [space.aget_space_info],
    [space.datasheets.alist], [datasheet.views.aall] and
    [datasheet.fields.aall] (the last two take what [ds['id']] holds). *)
Class VikaReads (U RecordT : Type) : Type := {
  records_aget : U -> string -> string -> outcome RecordT;
  aget_space_info : U -> string -> outcome json;
  datasheets_alist : U -> string -> outcome (list json);
  views_aall : U -> json -> outcome json;
  fields_aall : U -> json -> outcome json
}.

(** [POST /config]. [make_client] is the constructor [Vika(token=...,
    api_base=...)]; the configuration is stored before it runs. The
    endpoint has no dependency. *)
Definition set_config (make_client : string -> string -> outcome unit)
    (vika_config : VikaConfig) (s : server) : outcome json * server :=
  let s1 :=
    Server (vika_client s) (Some vika_config) (cache s) (rate_limiter s) in
  match make_client (user_token vika_config) (api_base vika_config) with
  | Raise e => (Raise (http500 "配置失败" e), s1)
  | Ok _ =>
      (Ok (JDict [("success", JBool true); ("message", JStr "配置成功")]),
       Server true (Some vika_config) (cache s) (rate_limiter s))
  end.

(** [GET /config] *)
Definition get_config (s : server) : json :=
  JDict [("success", JBool true);
         ("data",
          JDict [("api_base",
                  match config s with
                  | Some c => JStr (api_base c)
                  | None => JNone
                  end);
                 ("rate_limit_qps",
                  match config s with
                  | Some c => JInt (rate_limit_qps c)
                  | None => JNone
                  end);
                 ("client_initialized", JBool (vika_client s))])].

Definition record_cache_key (datasheet_id record_id : string) : string :=
  get_cache_key "record"
    [("datasheet_id", PyStr datasheet_id); ("record_id", PyStr record_id)].

(** The two invalidations of [update_record] and [delete_record]. *)
Definition clear_record_caches (datasheet_id record_id : string)
    (c : gmap string (entry json)) : gmap string (entry json) :=
  let c1 :=
    fst (clear_cache_pattern
           ("record:" +:+ datasheet_id +:+ ":" +:+ record_id) c) in
  fst (clear_cache_pattern ("records:" +:+ datasheet_id) c1).

(** [views.get('views', [])]: [None] when the value has no [get]. *)
Definition get_or_empty (k : string) (v : json) : option json :=
  match v with
  | JDict items => Some (default (JList []) (dict_get k items))
  | _ => None
  end.

(** [{**ds, 'views': views, 'fields': fields}] *)
Definition with_details (ds : list (string * json)) (views fields : json)
  : json :=
  JDict (dict_set "fields" fields (dict_set "views" views ds)).

Section MoreHandlers.
Context {U RecordT : Type} `{!Vika U RecordT} `{!VikaReads U RecordT}.

(** [GET /records/{datasheet_id}/{record_id}] *)
Definition get_record (now t_read t_store : Q) (operation : string)
    (datasheet_id record_id : string) (s : server) (u : U)
  : outcome json * server :=
  match dependencies now operation s with
  | (Raise e, s1) => (Raise e, s1)
  | (Ok _, s1) =>
      let cache_key := record_cache_key datasheet_id record_id in
      let (cached_result, c1) :=
        get_from_cache t_read cache_key 300 (cache s1) in
      match not_none cached_result with
      | Some v => (Ok (success_cached v true), with_cache c1 s1)
      | None =>
          match records_aget u datasheet_id record_id with
          | Raise e => (Raise (http500 "获取记录失败" e), with_cache c1 s1)
          | Ok result =>
              let result_dict := to_dict result in
              (Ok (success_cached result_dict false),
               with_cache (set_cache t_store cache_key result_dict c1) s1)
          end
      end
  end.

(** [PUT /records] *)
Definition update_record (now : Q) (operation : string)
    (datasheet_id record_id : string) (fields : list (string * json))
    (s : server) (u : U) : outcome json * server * U :=
  match dependencies now operation s with
  | (Raise e, s1) => (Raise e, s1, u)
  | (Ok _, s1) =>
      match records_aupdate u (JStr datasheet_id)
              (JList [JDict [("record_id", JStr record_id);
                             ("fields", JDict fields)]]) with
      | (Raise e, u') => (Raise (http500 "更新记录失败" e), s1, u')
      | (Ok result, u') =>
          (Ok (success (JList (map to_dict result))),
           with_cache (clear_record_caches datasheet_id record_id (cache s1))
             s1,
           u')
      end
  end.

(** [DELETE /records/{datasheet_id}/{record_id}] *)
Definition delete_record (now : Q) (operation : string)
    (datasheet_id record_id : string) (s : server) (u : U)
  : outcome json * server * U :=
  match dependencies now operation s with
  | (Raise e, s1) => (Raise e, s1, u)
  | (Ok _, s1) =>
      match records_adelete u (JStr datasheet_id) (JList [JStr record_id]) with
      | (Raise e, u') => (Raise (http500 "删除记录失败" e), s1, u')
      | (Ok result, u') =>
          (Ok (success result),
           with_cache (clear_record_caches datasheet_id record_id (cache s1))
             s1,
           u')
      end
  end.

(** The first loop of [get_space_configuration]: [ds['id']] for every
    datasheet of the list, before any detail is awaited. *)
Fixpoint datasheet_ids (datasheets_list : list json)
  : outcome (list (list (string * json) * json)) :=
  match datasheets_list with
  | [] => Ok []
  | ds :: rest =>
      match ds with
      | JDict items =>
          match dict_get "id" items with
          | None => Raise (KeyError "id")
          | Some i =>
              match datasheet_ids rest with
              | Raise e => Raise e
              | Ok tasks => Ok ((items, i) :: tasks)
              end
          end
      | _ => Raise TypeError
      end
  end.

(** One turn of the second loop: the views and the fields of a datasheet,
    or empty lists when either fetch or either [get] fails. *)
Definition datasheet_detail (u : U) (task : list (string * json) * json)
  : json :=
  let (ds, i) := task in
  match views_aall u i, fields_aall u i with
  | Ok views, Ok fields =>
      match get_or_empty "views" views, get_or_empty "fields" fields with
      | Some vs, Some fs => with_details ds vs fs
      | _, _ => with_details ds (JList []) (JList [])
      end
  | _, _ => with_details ds (JList []) (JList [])
  end.

(** [GET /spaces/{space_id}/configuration]. The two fetches of the first
    [gather] only read; when both fail the reply carries the exception of
    one of them, here that of the space information. *)
Definition get_space_configuration (now t_read t_store : Q)
    (operation : string) (space_id : string) (s : server) (u : U)
  : outcome json * server :=
  match dependencies now operation s with
  | (Raise e, s1) => (Raise e, s1)
  | (Ok _, s1) =>
      let cache_key :=
        get_cache_key "space_config" [("space_id", PyStr space_id)] in
      let (cached_result, c1) :=
        get_from_cache t_read cache_key 1800 (cache s1) in
      match not_none cached_result with
      | Some v => (Ok (success_cached v true), with_cache c1 s1)
      | None =>
          let failed e :=
            (Raise (http500 "获取空间站配置失败" e), with_cache c1 s1) in
          match aget_space_info u space_id, datasheets_alist u space_id with
          | Raise e, _ => failed e
          | Ok _, Raise e => failed e
          | Ok space_info, Ok datasheets_list =>
              match datasheet_ids datasheets_list with
              | Raise e => failed e
              | Ok tasks =>
                  let result :=
                    JDict [("space", space_info);
                           ("datasheets",
                            JList (map (datasheet_detail u) tasks))] in
                  (Ok (success_cached result false),
                   with_cache (set_cache t_store cache_key result c1) s1)
              end
          end
      end
  end.

End MoreHandlers.

(** One sleep of [d] seconds and then the detail fetch, for each of the
    folders [ids] in turn, and nothing else. *)
Definition pace (d : Q) (ids : list string) : list event :=
  flat_map (fun i => [EvSleep d; EvAget i]) ids.

Definition paced (d : Q) (tr : list event) : Prop :=
  exists ids, tr = pace d ids.

(** The ids of the folders of a reply of the fetcher, in the order of the
    reply, a folder before the folders under its ["children"]. *)
Fixpoint folder_ids (j : json) : list string :=
  match j with
  | JDict d =>
      (match dict_get "type" d, dict_get "id" d with
       | Some (JStr t), Some (JStr i) =>
           if String.eqb t "Folder" then [i] else []
       | _, _ => []
       end
       ++ (fix below (d : list (string * json)) : list string :=
             match d with
             | [] => []
             | (k, v) :: d' =>
                 (if String.eqb k "children" then folder_ids v else [])
                 ++ below d'
             end) d)%list
  | JList l => flat_map folder_ids l
  | _ => []
  end.

(** A platform that can be down ([true]): every call fails then. Up, it
    has one space with two datasheets, the second without views. *)
#[local] Instance outage_vika : Vika bool json := {|
  to_dict r := r;
  records_acreate u _ _ := (Raise (UpstreamError "platform down"), u);
  records_aupdate (u : bool) _ recs :=
    if u then (Raise (UpstreamError "platform down"), u)
    else match recs with
         | JList l => (Ok l, u)
         | _ => (Raise TypeError, u)
         end;
  records_adelete (u : bool) _ _ :=
    if u then (Raise (UpstreamError "platform down"), u)
    else (Ok (JBool true), u);
  records_aall (u : bool) _ _ :=
    if u then Raise (UpstreamError "platform down") else Ok [];
  nodes_aall (u : bool) _ :=
    if u then Raise (UpstreamError "platform down") else Ok [folder "f1"];
  nodes_aget _ _ := demo_space;
  py_repr _ := "[...]"
|}.

#[local] Instance outage_reads : VikaReads bool json := {|
  records_aget (u : bool) _ record_id :=
    if u then Raise (UpstreamError "platform down")
    else Ok (JDict [("recordId", JStr record_id)]);
  aget_space_info (u : bool) space_id :=
    if u then Raise (UpstreamError "platform down")
    else Ok (JDict [("id", JStr space_id)]);
  datasheets_alist (u : bool) _ :=
    if u then Raise (UpstreamError "platform down")
    else Ok [JDict [("id", JStr "dst1"); ("name", JStr "one")];
             JDict [("id", JStr "dst2"); ("name", JStr "two")]];
  views_aall _ i :=
    match i with
    | JStr d =>
        if String.eqb d "dst1" then Ok (JDict [("views", JList [JStr "grid"])])
        else Raise (UpstreamError "no views")
    | _ => Raise (UpstreamError "no views")
    end;
  fields_aall _ _ := Ok (JDict [("fields", JList [JStr "Name"])])
|}.

Definition fresh_server : server := Server true None ∅ ∅.

(** The number of colons of a string, and the part after the first one. *)
Fixpoint colons (s : string) : nat :=
  match s with
  | EmptyString => O
  | String c s' => ((if Ascii.eqb c ":"%char then 1 else 0) + colons s')%nat
  end.

Fixpoint split_tail (s : string) : string :=
  match s with
  | EmptyString => EmptyString
  | String c s' => if Ascii.eqb c ":"%char then s' else split_tail s'
  end.

(** * Properties *)

(** ** Comparisons and strings *)

Lemma Qltb_lt x y : Qltb x y = true <-> (x < y)%Q.
Proof.
  unfold Qltb. rewrite negb_true_iff, <- not_true_iff_false, Qle_bool_iff.
  split; [apply Qnot_le_lt | apply Qlt_not_le].
Qed.

Lemma Qltb_ge x y : Qltb x y = false <-> (y <= x)%Q.
Proof. unfold Qltb. rewrite negb_false_iff. apply Qle_bool_iff. Qed.

Lemma app_cons a p b : String a p +:+ b = String a (p +:+ b).
Proof. reflexivity. Qed.

Lemma app_nil_l b : "" +:+ b = b.
Proof. reflexivity. Qed.

Lemma prefix_app p k : String.prefix p k = true <-> exists b, k = p +:+ b.
Proof.
  revert k. induction p as [|a p IH]; intros k.
  - destruct k; simpl; split; eauto.
  - destruct k as [|a' k]; simpl.
    { split; [done | intros [b Hb]; done]. }
    destruct (ascii_dec a a') as [->|Hne].
    + rewrite IH. split; intros [b Hb]; exists b.
      * rewrite app_cons. congruence.
      * rewrite app_cons in Hb. congruence.
    + split; [done | intros [b Hb]; rewrite app_cons in Hb; congruence].
Qed.

(** [contains] is the substring test. *)
Lemma contains_substring p k :
  contains p k = true <-> exists a b, k = a +:+ p +:+ b.
Proof.
  induction k as [|c k IH].
  - change (contains p "") with (String.prefix p "" || false).
    rewrite orb_false_r, prefix_app. split.
    + intros [b Hb]. by exists "", b.
    + intros [[|??] [b Hb]]; [by exists b | done].
  - change (contains p (String c k))
      with (String.prefix p (String c k) || contains p k).
    rewrite orb_true_iff, prefix_app, IH. split.
    + intros [[b Hb]|(a & b & Hab)]; [by exists "", b|].
      exists (String c a), b. rewrite app_cons. by rewrite Hab.
    + intros ([|c' a] & b & Hab); [left; by exists b|].
      right. exists a, b. rewrite app_cons in Hab. congruence.
Qed.

(** ** Cache store *)

Section CacheFacts.
Context {V : Type}.
Implicit Types (c : gmap string (entry V)) (key pattern : string).

Lemma lookup_foldl_delete c (ks : list string) key :
  foldl (fun m k => delete k m) c ks !! key
  = if decide (key ∈ ks) then None else c !! key.
Proof.
  revert c. induction ks as [|k ks IH]; intros c.
  - case_decide as Hin; [by apply elem_of_nil in Hin | done].
  - change (foldl (fun m k0 => delete k0 m) c (k :: ks))
      with (foldl (fun m k0 => delete k0 m) (delete k c) ks).
    rewrite IH. destruct (decide (key = k)) as [->|Hne].
    + rewrite lookup_delete_eq, (decide_True (P := k ∈ k :: ks)).
      * by case_decide.
      * apply elem_of_cons. by left.
    + rewrite lookup_delete_ne by done.
      destruct (decide (key ∈ ks)) as [H1|H1];
        destruct (decide (key ∈ k :: ks)) as [H2|H2]; try done;
        exfalso; rewrite elem_of_cons in H2; tauto.
Qed.

Lemma elem_of_keys_to_delete pattern c key :
  key ∈ keys_to_delete pattern c
  <-> contains pattern key = true /\ is_Some (c !! key).
Proof.
  unfold keys_to_delete.
  rewrite list_elem_of_In, filter_In, <- list_elem_of_In, list_elem_of_fmap.
  split.
  - intros [([k e] & -> & Hin%elem_of_map_to_list) Hc]. simpl in *. eauto.
  - intros [Hc [e He]]. split; [|done].
    exists (key, e). split; [done|]. by apply elem_of_map_to_list.
Qed.

Lemma lookup_clear_cache_pattern pattern c key :
  fst (clear_cache_pattern pattern c) !! key
  = if contains pattern key then None else c !! key.
Proof.
  unfold clear_cache_pattern. simpl. rewrite lookup_foldl_delete.
  destruct (decide (key ∈ keys_to_delete pattern c)) as [Hin|Hnin].
  - apply elem_of_keys_to_delete in Hin as [-> _]. done.
  - destruct (contains pattern key) eqn:Hc; [|done].
    destruct (c !! key) eqn:Hk; [|done].
    exfalso. apply Hnin, elem_of_keys_to_delete. eauto.
Qed.

Lemma get_from_cache_absent now key max_age c :
  c !! key = None -> get_from_cache now key max_age c = (None, c).
Proof. intros H. unfold get_from_cache. by rewrite H. Qed.

Lemma get_from_cache_fresh now key max_age c e :
  c !! key = Some e ->
  (now - timestamp e < inject_Z max_age)%Q ->
  get_from_cache now key max_age c = (Some (data e), c).
Proof.
  intros H Hlt. unfold get_from_cache. rewrite H.
  apply Qltb_lt in Hlt. by rewrite Hlt.
Qed.

Lemma get_from_cache_expired now key max_age c e :
  c !! key = Some e ->
  ~ (now - timestamp e < inject_Z max_age)%Q ->
  get_from_cache now key max_age c = (None, delete key c).
Proof.
  intros H Hge. unfold get_from_cache. rewrite H.
  destruct (Qltb _ _) eqn:Hlt; [|done].
  apply Qltb_lt in Hlt. contradiction.
Qed.

(** C4. A read returns the stored value exactly when the entry is
    younger than [max_age]; an expired entry is deleted by the read and
    stays absent for every later read, whatever its [max_age]; a store
    overwrites the entry with the current time, and a read right after it
    returns the stored value for every positive [max_age]. *)
Theorem cache_get_set_contract c key (v : V) (max_age : Z) (now : Q) :
  (0 < max_age)%Z ->
  (forall e, c !! key = Some e ->
     (fst (get_from_cache now key max_age c) = Some (data e)
      <-> (now - timestamp e < inject_Z max_age)%Q)
     /\ (~ (now - timestamp e < inject_Z max_age)%Q ->
         get_from_cache now key max_age c = (None, delete key c)
         /\ forall now' max_age',
              get_from_cache now' key max_age' (delete key c)
              = (None, delete key c)))
  /\ set_cache now key v c !! key = Some (Entry v now)
  /\ (forall key', key' <> key ->
        set_cache now key v c !! key' = c !! key')
  /\ get_from_cache now key max_age (set_cache now key v c)
     = (Some v, set_cache now key v c).
Proof.
  intros Hpos. repeat split.
  - intros Hget. destruct (Qlt_le_dec (now - timestamp e) (inject_Z max_age))
      as [Hlt|Hge]; [done|].
    rewrite (get_from_cache_expired _ _ _ _ e) in Hget; [done..|].
    by apply Qle_not_lt.
  - intros Hlt. by rewrite (get_from_cache_fresh _ _ _ _ e).
  - by apply (get_from_cache_expired _ _ _ _ e).
  - intros now' max_age'. apply get_from_cache_absent, lookup_delete_eq.
  - apply lookup_insert_eq.
  - intros key' Hne. unfold set_cache. by apply lookup_insert_ne.
  - rewrite (get_from_cache_fresh _ _ _ _ (Entry v now)); [done|..].
    + apply lookup_insert_eq.
    + simpl. assert (inject_Z 0 < inject_Z max_age)%Q as Hq
        by (by rewrite <- Zlt_Qlt).
      change (inject_Z 0) with 0%Q in Hq. lra.
Qed.

(** C8. Pattern invalidation removes the entries whose key contains the
    pattern and none else: the lookup of every key afterwards is absent
    when the key contains the pattern and is the old lookup (same value,
    same timestamp) otherwise; the count returned is the number of keys
    deleted. *)
Theorem clear_cache_pattern_exact pattern c key :
  (contains pattern key = true <-> exists a b, key = a +:+ pattern +:+ b)
  /\ fst (clear_cache_pattern pattern c) !! key
     = (if contains pattern key then None else c !! key)
  /\ snd (clear_cache_pattern pattern c)
     = length (List.filter (contains pattern) (map fst (map_to_list c)))
  /\ (forall (v : V) now now' max_age,
        let c1 := set_cache now "records:X:page1" v c in
        let c2 := fst (clear_cache_pattern "records:X" c1) in
        c1 !! "records:X:page1" = Some (Entry v now)
        /\ c2 !! "records:X:page1" = None
        /\ get_from_cache now' "records:X:page1" max_age c2 = (None, c2)).
Proof.
  split; [apply contains_substring|].
  split; [apply lookup_clear_cache_pattern|].
  split; [done|].
  intros v now now' max_age c1 c2.
  assert (c2 !! "records:X:page1" = None) as Hnone.
  { unfold c2. by rewrite lookup_clear_cache_pattern. }
  split; [apply lookup_insert_eq|]. split; [done|].
  by apply get_from_cache_absent.
Qed.

End CacheFacts.

Lemma cache_get_set_contract_witness :
  (0 < 300)%Z
  /\ get_from_cache 7 "spaces" 300 (set_cache 7 "spaces" (JList []) ∅)
     = (Some (JList []), set_cache 7 "spaces" (JList []) ∅).
Proof.
  split; [lia|].
  apply (cache_get_set_contract ∅ "spaces" (JList []) 300 7). lia.
Defined.

(** ** Rate limiter *)

Section RateLimiterFacts.
Implicit Types (rl : gmap string (list Q)) (op : string).

(** The two exits of [rate_limit_check], on the pruned window. *)
Lemma rate_limit_check_eq cfg t op rl :
  let w := prune t (default [] (rl !! op)) in
  rate_limit_check cfg t op rl
  = if (qps_limit_of cfg <=? Z.of_nat (length w))%Z
    then (Raise (HTTPException 429 (rate_limit_detail (qps_limit_of cfg))),
          <[op := w]> rl)
    else (Ok tt, <[op := (w ++ [t])%list]> rl).
Proof.
  unfold rate_limit_check. destruct (rl !! op) as [w0|] eqn:Hop; simpl.
  - rewrite Hop. simpl. destruct (_ <=? _)%Z; [done|].
    by rewrite insert_insert_eq.
  - rewrite lookup_insert_eq. simpl. destruct (_ <=? _)%Z.
    + by rewrite insert_insert_eq.
    + by rewrite !insert_insert_eq.
Qed.

Lemma prune_keep t a ts :
  (t - a < 1)%Q -> prune t (a :: ts) = a :: prune t ts.
Proof. intros H%Qltb_lt. unfold prune. simpl. by rewrite H. Qed.

Lemma prune_drop t a ts :
  (1 <= t - a)%Q -> prune t (a :: ts) = prune t ts.
Proof. intros H%Qltb_ge. unfold prune. simpl. by rewrite H. Qed.

Lemma prune_nil t : prune t [] = [].
Proof. done. Qed.

Lemma prune_length t ts : (length (prune t ts) <= length ts)%nat.
Proof. apply filter_length_le. Qed.

Lemma prune_full t ts : length (prune t ts) = length ts -> prune t ts = ts.
Proof.
  induction ts as [|a ts IH]; [done|]. unfold prune. simpl.
  destruct (Qltb (t - a) 1); simpl; intros Hlen.
  - f_equal. apply IH. unfold prune. lia.
  - pose proof (prune_length t ts) as Hle. unfold prune in Hle. lia.
Qed.

(** A check keeps the windows within a non-negative quota, so every state
    reached from the empty limiter under one such quota is bounded. *)
Lemma rate_limit_check_bounded cfg t op rl :
  (0 <= qps_limit_of cfg)%Z ->
  bounded (qps_limit_of cfg) rl ->
  bounded (qps_limit_of cfg) (snd (rate_limit_check cfg t op rl)).
Proof.
  intros Hq Hb. rewrite rate_limit_check_eq. cbv zeta.
  pose proof (prune_length t (default [] (rl !! op))) as Hp.
  assert (Z.of_nat (length (default [] (rl !! op))) <= qps_limit_of cfg)%Z
    as Hd.
  { destruct (rl !! op) as [w|] eqn:Hop; simpl; [by eapply Hb | lia]. }
  destruct (_ <=? _)%Z eqn:Hle; simpl; intros op' w;
    (destruct (decide (op' = op)) as [->|Hne];
     [rewrite lookup_insert_eq | rewrite lookup_insert_ne by done; apply Hb]).
  - intros [= <-]. lia.
  - intros [= <-]. rewrite length_app. simpl. lia.
Qed.

(** C2, as the code has it. A denied call appends nothing and touches
    only the window of its own operation, which becomes the pruned
    window; the state is unchanged when that window exists and holds no
    stale timestamp, in particular when it holds no more timestamps than
    the quota. *)
Theorem rate_limit_denied_effect cfg t op rl :
  is_ok (fst (rate_limit_check cfg t op rl)) = false ->
  let rl' := snd (rate_limit_check cfg t op rl) in
  rl' = <[op := prune t (default [] (rl !! op))]> rl
  /\ (forall op', op' <> op -> rl' !! op' = rl !! op')
  /\ (forall w, rl !! op = Some w -> prune t w = w -> rl' = rl)
  /\ (forall w, rl !! op = Some w ->
        (Z.of_nat (length w) <= qps_limit_of cfg)%Z -> rl' = rl).
Proof.
  rewrite rate_limit_check_eq. cbv zeta.
  destruct (_ <=? _)%Z eqn:Hle; simpl; [intros _ | done].
  split; [done|]. split; [|split].
  - intros op' Hne. by rewrite lookup_insert_ne.
  - intros w Hop Hw. rewrite Hop. simpl. rewrite Hw. by apply insert_id.
  - intros w Hop Hlen. rewrite Hop in *. simpl in *.
    rewrite prune_full; [by apply insert_id|].
    pose proof (prune_length t w). lia.
Qed.

(** C3. Under quota 2 and from an empty window, three checks whose
    times lie within 900 ms are admitted, admitted and denied, the denial
    being the 429 error whose detail carries the quota; a check more than
    one second after the admitted ones is admitted again. *)
Theorem rate_limit_quota_two cfg op rl (t0 t1 t2 t3 t4 : Q) :
  qps_limit_of cfg = 2%Z ->
  default [] (rl !! op) = [] ->
  (t0 <= t1 <= t0 + (9 # 10))%Q ->
  (t0 <= t2 <= t0 + (9 # 10))%Q ->
  (t0 <= t3 <= t0 + (9 # 10))%Q ->
  (t1 + 1 < t4)%Q -> (t2 + 1 < t4)%Q ->
  let c1 := rate_limit_check cfg t1 op rl in
  let c2 := rate_limit_check cfg t2 op (snd c1) in
  let c3 := rate_limit_check cfg t3 op (snd c2) in
  let c4 := rate_limit_check cfg t4 op (snd c3) in
  fst c1 = Ok tt /\ fst c2 = Ok tt
  /\ fst c3 = Raise (HTTPException 429 "请求频率超限，当前限制: 2 QPS")
  /\ snd c3 = snd c2
  /\ fst c4 = Ok tt.
Proof.
  intros Hq Hempty [H1a H1b] [H2a H2b] [H3a H3b] H41 H42.
  intros c1 c2 c3 c4.
  assert (c1 = (Ok tt, <[op := [t1]]> rl)) as E1.
  { unfold c1. rewrite rate_limit_check_eq, Hempty, Hq. done. }
  assert (c2 = (Ok tt, <[op := [t1; t2]]> rl)) as E2.
  { unfold c2. rewrite E1. cbn [snd].
    rewrite rate_limit_check_eq, lookup_insert_eq, Hq. cbn [from_option id].
    rewrite prune_keep, prune_nil by lra. cbn [length app].
    change (2 <=? Z.of_nat 1)%Z with false. cbv iota.
    by rewrite insert_insert_eq. }
  assert (c3 = (Raise (HTTPException 429 (rate_limit_detail 2)),
                <[op := [t1; t2]]> rl)) as E3.
  { unfold c3. rewrite E2. cbn [snd].
    rewrite rate_limit_check_eq, lookup_insert_eq, Hq. cbn [from_option id].
    rewrite !prune_keep, prune_nil by lra. cbn [length].
    change (2 <=? Z.of_nat 2)%Z with true. cbv iota.
    by rewrite insert_insert_eq. }
  assert (fst c4 = Ok tt) as E4.
  { unfold c4. rewrite E3. cbn [snd].
    rewrite rate_limit_check_eq, lookup_insert_eq, Hq. cbn [from_option id].
    rewrite !prune_drop, prune_nil by lra. done. }
  rewrite E1, E2, E3. done.
Qed.

End RateLimiterFacts.

Lemma rate_limit_denied_effect_witness :
  is_ok (fst (rate_limit_check None 0 "default" {[ "default" := [0%Q; 0%Q] ]}))
  = false
  /\ snd (rate_limit_check None 0 "default" {[ "default" := [0%Q; 0%Q] ]})
     = {[ "default" := [0%Q; 0%Q] ]}.
Proof.
  assert (is_ok (fst (rate_limit_check None 0 "default"
                        {[ "default" := [0%Q; 0%Q] ]})) = false) as Hdenied
    by reflexivity.
  split; [exact Hdenied|].
  apply (rate_limit_denied_effect None 0 "default"
           {[ "default" := [0%Q; 0%Q] ]} Hdenied) with [0%Q; 0%Q];
    [reflexivity | simpl; lia].
Defined.

(** C2 as stated fails: a window filled under quota 3 and checked after
    the quota was lowered to 2 is pruned by the call that is denied. *)
Lemma rate_limit_denied_mutates :
  let cfg q := Some {| user_token := "t"; api_base := "b";
                       rate_limit_qps := q |} in
  let rl1 := snd (rate_limit_check (cfg 3%Z) 0 "default" ∅) in
  let rl2 := snd (rate_limit_check (cfg 3%Z) (1 # 2) "default" rl1) in
  let rl3 := snd (rate_limit_check (cfg 3%Z) (1 # 2) "default" rl2) in
  rl3 !! "default" = Some [0%Q; (1 # 2)%Q; (1 # 2)%Q]
  /\ is_ok (fst (rate_limit_check (cfg 2%Z) 1 "default" rl3)) = false
  /\ snd (rate_limit_check (cfg 2%Z) 1 "default" rl3) !! "default"
     = Some [(1 # 2)%Q; (1 # 2)%Q]
  /\ snd (rate_limit_check (cfg 2%Z) 1 "default" rl3) <> rl3.
Proof.
  cbv zeta. split; [reflexivity|]. split; [reflexivity|].
  split; [reflexivity|].
  intros Heq. apply (f_equal (lookup "default")) in Heq.
  vm_compute in Heq. discriminate.
Qed.

Lemma rate_limit_quota_two_witness :
  let c1 := rate_limit_check None (1 # 10) "default" ∅ in
  let c2 := rate_limit_check None (1 # 2) "default" (snd c1) in
  let c3 := rate_limit_check None (9 # 10) "default" (snd c2) in
  let c4 := rate_limit_check None 2 "default" (snd c3) in
  fst c1 = Ok tt /\ fst c2 = Ok tt
  /\ fst c3 = Raise (HTTPException 429 "请求频率超限，当前限制: 2 QPS")
  /\ snd c3 = snd c2
  /\ fst c4 = Ok tt.
Proof.
  apply (rate_limit_quota_two None "default" ∅ 0 (1 # 10) (1 # 2) (9 # 10) 2);
    try reflexivity; try (split; vm_compute; congruence);
    vm_compute; reflexivity.
Defined.

(** ** Cache keys *)

Section CacheKeyFacts.
Implicit Types (kw : kwargs) (kv : string * pyval).

#[local] Instance key_le_trans : Transitive key_le.
Proof. intros x y z. unfold key_le. apply transitivity. Qed.

Lemma leb_false_le (s1 s2 : string) :
  String.leb s1 s2 = false -> String.le s2 s1.
Proof.
  intros Hf. destruct (String.leb_total s1 s2) as [H|H]; [congruence|].
  unfold String.le. by rewrite H.
Qed.

Lemma sorted_insert_perm kv l : sorted_insert kv l ≡ₚ kv :: l.
Proof.
  induction l as [|kv' l IH]; simpl; [done|].
  destruct (String.leb _ _); [done|]. rewrite IH. apply Permutation_swap.
Qed.

Lemma sorted_items_perm kw : sorted_items kw ≡ₚ kw.
Proof.
  induction kw as [|kv kw IH]; simpl; [done|].
  by rewrite sorted_insert_perm, IH.
Qed.

Lemma sorted_insert_hd kv0 kv l :
  key_le kv0 kv -> HdRel key_le kv0 l -> HdRel key_le kv0 (sorted_insert kv l).
Proof.
  intros Hle Hhd. destruct l as [|kv' l]; simpl; [by constructor|].
  destruct (String.leb _ _); constructor; [done|]. by inversion Hhd.
Qed.

Lemma sorted_insert_sorted kv l :
  Sorted key_le l -> Sorted key_le (sorted_insert kv l).
Proof.
  induction 1 as [|kv' l Hs IH Hhd]; simpl; [by repeat constructor|].
  destruct (String.leb (fst kv) (fst kv')) eqn:Hle.
  - constructor; [by constructor|]. constructor.
    unfold key_le, String.le. by rewrite Hle.
  - constructor; [done|]. apply sorted_insert_hd; [|done].
    by apply leb_false_le.
Qed.

Lemma sorted_items_sorted kw : StronglySorted key_le (sorted_items kw).
Proof.
  apply Sorted_StronglySorted; [apply _|].
  induction kw as [|kv kw IH]; simpl; [constructor|].
  by apply sorted_insert_sorted.
Qed.

Lemma NoDup_keys_eq kw kv1 kv2 :
  NoDup (map fst kw) -> kv1 ∈ kw -> kv2 ∈ kw -> fst kv1 = fst kv2 ->
  kv1 = kv2.
Proof.
  induction kw as [|kv kw IH]; simpl; [by intros _ ?%elem_of_nil|].
  intros [Hnin Hnd]%NoDup_cons [->|H1]%elem_of_cons [->|H2]%elem_of_cons Hk;
    [done| | |by apply IH].
  - exfalso. apply Hnin. rewrite Hk. by apply list_elem_of_fmap_2.
  - exfalso. apply Hnin. rewrite <- Hk. by apply list_elem_of_fmap_2.
Qed.

(** Sorting forgets the order the keywords were written in. *)
Lemma sorted_items_permutation kw1 kw2 :
  NoDup (map fst kw1) -> kw1 ≡ₚ kw2 -> sorted_items kw1 = sorted_items kw2.
Proof.
  intros Hnd Hperm.
  apply (StronglySorted_unique_strong key_le);
    [|apply sorted_items_sorted..|by rewrite !sorted_items_perm].
  intros x1 x2 Hx1 Hx2 H12 H21.
  apply (NoDup_keys_eq kw1); [done|by rewrite <- (sorted_items_perm kw1)| |].
  - by rewrite Hperm, <- (sorted_items_perm kw2).
  - by apply (anti_symm String.le).
Qed.

Lemma set_value_fst k v kv : fst (set_value k v kv) = fst kv.
Proof.
  unfold set_value. destruct (String.eqb_spec (fst kv) k); by subst.
Qed.

Lemma set_value_other k v l :
  k ∉ map fst l -> map (set_value k v) l = l.
Proof.
  induction l as [|kv l IH]; [done|]. simpl.
  intros [Hne Hnin]%not_elem_of_cons. rewrite IH by done. f_equal.
  unfold set_value. destruct (String.eqb_spec (fst kv) k); congruence.
Qed.

Lemma set_value_at k v v' pre post :
  NoDup (map fst (pre ++ (k, v') :: post)) ->
  map (set_value k v) (pre ++ (k, v') :: post) = pre ++ (k, v) :: post.
Proof.
  rewrite map_app. simpl. intros Hnd.
  apply NoDup_app in Hnd as (_ & Hpre & [Hpost _]%NoDup_cons).
  rewrite map_app. simpl. rewrite !set_value_other.
  - unfold set_value. simpl. by rewrite String.eqb_refl.
  - done.
  - intros Hin. apply (Hpre k Hin). by left.
Qed.

Lemma sorted_insert_map f kv l :
  (forall x, fst (f x) = fst x) ->
  sorted_insert (f kv) (map f l) = map f (sorted_insert kv l).
Proof.
  intros Hf. induction l as [|kv' l IH]; simpl; [done|].
  rewrite !Hf. destruct (String.leb _ _); simpl; [done|]. by rewrite IH.
Qed.

Lemma sorted_items_map f kw :
  (forall x, fst (f x) = fst x) ->
  sorted_items (map f kw) = map f (sorted_items kw).
Proof.
  intros Hf. induction kw as [|kv kw IH]; [done|].
  change (sorted_items (map f (kv :: kw)))
    with (sorted_insert (f kv) (sorted_items (map f kw))).
  rewrite IH.
  change (sorted_items (kv :: kw))
    with (sorted_insert kv (sorted_items kw)).
  by apply sorted_insert_map.
Qed.

Lemma app_assoc_s (a b c : string) : (a +:+ b) +:+ c = a +:+ b +:+ c.
Proof. induction a as [|x a IH]; [done|]. by rewrite !app_cons, IH. Qed.

Lemma app_nil_r_s (a : string) : a +:+ "" = a.
Proof. induction a as [|x a IH]; [done|]. by rewrite app_cons, IH. Qed.

Lemma length_app_s (a b : string) :
  String.length (a +:+ b) = (String.length a + String.length b)%nat.
Proof. induction a as [|x a IH]; [done|]. rewrite app_cons. simpl. lia. Qed.

Lemma app_inv_tail_s (a b t : string) : a +:+ t = b +:+ t -> a = b.
Proof.
  revert b. induction a as [|x a IH]; intros [|y b] H; [done| | |].
  - apply (f_equal String.length) in H.
    rewrite app_nil_l, app_cons in H. simpl in H.
    rewrite length_app_s in H. lia.
  - apply (f_equal String.length) in H.
    rewrite app_nil_l, app_cons in H. simpl in H.
    rewrite length_app_s in H. lia.
  - rewrite !app_cons in H. injection H as -> H. f_equal. by apply IH.
Qed.

Lemma concat_cons_tail sep y ys :
  String.concat sep (y :: ys) = y +:+ join_tail sep ys.
Proof. destruct ys; simpl; [by rewrite app_nil_r_s | done]. Qed.

Lemma concat_middle sep x xs y ys :
  String.concat sep (x :: xs ++ y :: ys)
  = String.concat sep (x :: xs) +:+ sep +:+ y +:+ join_tail sep ys.
Proof.
  revert x. induction xs as [|x' xs IH]; intros x.
  - change (String.concat sep (x :: [] ++ y :: ys))
      with (x +:+ sep +:+ String.concat sep (y :: ys)).
    by rewrite concat_cons_tail.
  - change (String.concat sep (x :: (x' :: xs) ++ y :: ys))
      with (x +:+ sep +:+ String.concat sep (x' :: xs ++ y :: ys)).
    rewrite IH.
    change (String.concat sep (x :: x' :: xs))
      with (x +:+ sep +:+ String.concat sep (x' :: xs)).
    by rewrite !app_assoc_s.
Qed.

(** Two calls that differ in the value of one keyword have different
    keys as soon as the two values print differently. *)
Lemma get_cache_key_differs op pre post k v1 v2 :
  NoDup (map fst (pre ++ (k, v1) :: post)) ->
  py_str v1 <> py_str v2 ->
  get_cache_key op (pre ++ (k, v1) :: post)
  <> get_cache_key op (pre ++ (k, v2) :: post).
Proof.
  intros Hnd Hstr. unfold get_cache_key.
  rewrite <- (set_value_at k v2 v1 pre post Hnd).
  rewrite sorted_items_map by apply set_value_fst.
  assert ((k, v1) ∈ sorted_items (pre ++ (k, v1) :: post)) as Hin.
  { rewrite sorted_items_perm. apply elem_of_app. right. by left. }
  apply list_elem_of_split in Hin as (A & B & HAB).
  assert (NoDup (map fst (A ++ (k, v1) :: B))) as Hnd'.
  { rewrite <- HAB. by rewrite sorted_items_perm. }
  rewrite HAB, (set_value_at k v2 v1 A B Hnd'), !map_app. cbn [map].
  rewrite !concat_middle.
  change (key_part (k, v1)) with (k +:+ "=" +:+ py_str v1).
  change (key_part (k, v2)) with (k +:+ "=" +:+ py_str v2).
  intros Heq. apply Hstr.
  do 2 apply (inj (String.app _)) in Heq.
  rewrite !app_assoc_s in Heq.
  do 2 apply (inj (String.app _)) in Heq.
  by apply app_inv_tail_s in Heq.
Qed.

Lemma to_int_not_nil z :
  Z.to_int z <> Decimal.Pos Decimal.Nil
  /\ Z.to_int z <> Decimal.Neg Decimal.Nil.
Proof.
  destruct z; simpl; split; try discriminate; intros [= H];
    by apply Unsigned.to_uint_nonnil in H.
Qed.

(** [str] is injective on integers. *)
Lemma py_str_int_inj z1 z2 : py_str (PyInt z1) = py_str (PyInt z2) -> z1 = z2.
Proof.
  simpl. intros H. apply DecimalZ.to_int_inj.
  apply (f_equal NilZero.int_of_string) in H.
  rewrite !NilZero.isi in H by apply to_int_not_nil. congruence.
Qed.

(** C9, as the code has it. The key does not depend on the order the
    keywords are written in; two calls that differ in the value of one
    keyword have different keys when the two values print differently,
    which two different strings and two different integers do. *)
Theorem get_cache_key_canonical op kw1 kw2 :
  NoDup (map fst kw1) -> kw1 ≡ₚ kw2 ->
  get_cache_key op kw1 = get_cache_key op kw2
  /\ (forall pre post k v1 v2 kw',
        kw1 = pre ++ (k, v1) :: post ->
        kw' ≡ₚ pre ++ (k, v2) :: post ->
        py_str v1 <> py_str v2 ->
        get_cache_key op kw2 <> get_cache_key op kw')
  /\ (forall s1 s2, s1 <> s2 -> py_str (PyStr s1) <> py_str (PyStr s2))
  /\ (forall z1 z2, z1 <> z2 -> py_str (PyInt z1) <> py_str (PyInt z2)).
Proof.
  intros Hnd Hperm.
  assert (get_cache_key op kw1 = get_cache_key op kw2) as Heq.
  { unfold get_cache_key. by rewrite (sorted_items_permutation kw1 kw2). }
  split; [done|]. split; [|split].
  - intros pre post k v1 v2 kw' -> Hperm' Hstr. rewrite <- Heq.
    assert (NoDup (map fst kw')) as Hnd'.
    { rewrite Hperm'. revert Hnd. by rewrite !map_app. }
    unfold get_cache_key at 2.
    rewrite (sorted_items_permutation kw' _ Hnd' Hperm').
    by apply get_cache_key_differs.
  - intros s1 s2 Hne. done.
  - intros z1 z2 Hne Hz. by apply Hne, py_str_int_inj.
Qed.

End CacheKeyFacts.

Lemma get_cache_key_canonical_witness :
  NoDup (map fst [("datasheet_id", PyStr "X"); ("view_id", PyNone)])
  /\ get_cache_key "records" [("datasheet_id", PyStr "X"); ("view_id", PyNone)]
     = get_cache_key "records"
         [("view_id", PyNone); ("datasheet_id", PyStr "X")].
Proof.
  assert (NoDup (map fst [("datasheet_id", PyStr "X"); ("view_id", PyNone)]))
    as Hnd by (apply (bool_decide_unpack _); vm_compute; exact I).
  split; [exact Hnd|].
  apply (get_cache_key_canonical "records" _ _ Hnd). apply Permutation_swap.
Defined.

(** C9 as stated fails: [None] and the string ["None"] are different
    values of [view_id] and give the same key. *)
Lemma get_cache_key_collision :
  PyNone <> PyStr "None"
  /\ get_cache_key "records" [("datasheet_id", PyStr "X"); ("view_id", PyNone)]
     = get_cache_key "records"
         [("datasheet_id", PyStr "X"); ("view_id", PyStr "None")].
Proof. split; [discriminate | reflexivity]. Qed.

(** ** Tree fetcher *)

Section MonadFacts.
Context {A B : Type}.

Lemma bind_ok (m : M A) (k : A -> M B) tr1 a tr2 r :
  m = (tr1, Ok a) -> k a = (tr2, r) -> bind m k = ((tr1 ++ tr2)%list, r).
Proof. intros -> Hk. unfold bind. by rewrite Hk. Qed.

Lemma bind_ok_inv (m : M A) (k : A -> M B) tr b :
  bind m k = (tr, Ok b) ->
  exists tr1 a tr2,
    m = (tr1, Ok a) /\ k a = (tr2, Ok b) /\ tr = (tr1 ++ tr2)%list.
Proof.
  destruct m as [tr1 [a|e]]; simpl; [|done].
  destruct (k a) as [tr2 r] eqn:Hk. intros [= <- ->]. by exists tr1, a, tr2.
Qed.

End MonadFacts.

(** *** The delay computation *)

Section FloatFacts.
Local Open Scope Z_scope.

Lemma round_half_even_one n : round_half_even n 1 = n.
Proof.
  unfold round_half_even. rewrite Z.mod_1_r, Z.div_1_r. reflexivity.
Qed.

Lemma round_half_even_bounds n d :
  0 < d -> n / d <= round_half_even n d <= n / d + 1.
Proof.
  intros Hd. unfold round_half_even.
  destruct (2 * (n mod d) ?= d); [destruct (Z.even _)|..]; lia.
Qed.

(** Rounding to 53 bits stays between the powers of two around [a]. *)
Lemma round_53_bounds a :
  2 ^ 53 <= a ->
  let e := Z.log2 a - 52 in
  2 ^ Z.log2 a <= round_half_even a (2 ^ e) * 2 ^ e <= 2 ^ (Z.log2 a + 1).
Proof.
  intros Ha e.
  assert (0 < a) as Hpos
    by (assert (0 < 2 ^ 53) by (by apply Z.pow_pos_nonneg); lia).
  destruct (Z.log2_spec a Hpos) as [Hlo Hhi].
  assert (53 <= Z.log2 a) as HL.
  { apply Z.log2_le_pow2; [lia|done]. }
  assert (0 <= e) as He by (unfold e; lia).
  assert (0 < 2 ^ e) as Hpe by (by apply Z.pow_pos_nonneg).
  assert (2 ^ Z.log2 a = 2 ^ 52 * 2 ^ e) as E1.
  { rewrite <- Z.pow_add_r by lia. f_equal. unfold e. lia. }
  assert (2 ^ (Z.log2 a + 1) = 2 ^ 53 * 2 ^ e) as E2.
  { rewrite <- Z.pow_add_r by lia. f_equal. unfold e. lia. }
  replace (Z.succ (Z.log2 a)) with (Z.log2 a + 1) in Hhi by lia.
  rewrite E1 in *. rewrite E2 in *.
  pose proof (round_half_even_bounds a (2 ^ e) Hpe) as [Hr1 Hr2].
  assert (2 ^ 52 <= a / 2 ^ e) as Hq1.
  { apply Z.div_le_lower_bound; lia. }
  assert (a / 2 ^ e < 2 ^ 53) as Hq2.
  { apply Z.div_lt_upper_bound; lia. }
  split.
  - apply Z.mul_le_mono_nonneg_r; lia.
  - apply Z.mul_le_mono_nonneg_r; lia.
Qed.

Lemma float_of_int_small a :
  0 < a -> a < 2 ^ 53 -> float_of_int a = Ok a.
Proof.
  intros Hpos Ha. unfold float_of_int.
  rewrite Z.abs_eq by lia.
  assert (Z.log2 a < 53) as HL by (apply Z.log2_lt_pow2; lia).
  rewrite Z.max_l by lia. change (2 ^ 0) with 1.
  rewrite round_half_even_one, Z.mul_1_r.
  rewrite Z.sgn_pos by done.
  destruct (Z.leb_spec (2 ^ 1024) a) as [H|H].
  - assert (2 ^ 53 < 2 ^ 1024) by (apply Z.pow_lt_mono_r; lia). lia.
  - f_equal. lia.
Qed.

Lemma float_of_int_positive a :
  0 < a ->
  if a <? float_overflow_at
  then exists b, float_of_int a = Ok b /\ 0 < b
  else float_of_int a = Raise OverflowError.
Proof.
  intros Hpos.
  destruct (Z.ltb_spec a float_overflow_at) as [Hlt|Hge].
  - destruct (Z.lt_ge_cases a (2 ^ 53)) as [Hs|Hb].
    { exists a. split; [by apply float_of_int_small | done]. }
    pose proof (round_53_bounds a Hb) as [Hlo Hhi].
    destruct (Z.log2_spec a Hpos) as [Hl1 Hl2].
    assert (53 <= Z.log2 a) as HL by (apply Z.log2_le_pow2; [lia|done]).
    unfold float_of_int. rewrite Z.abs_eq, Z.sgn_pos, Z.mul_1_l by lia.
    rewrite Z.max_r by lia.
    set (e := Z.log2 a - 52) in *.
    set (m := round_half_even a (2 ^ e)) in *.
    assert (0 < 2 ^ Z.log2 a) by (apply Z.pow_pos_nonneg; lia).
    assert (m * 2 ^ e < 2 ^ 1024) as Hfin;
      [|destruct (Z.leb_spec (2 ^ 1024) (m * 2 ^ e)); [lia|];
        eexists; split; [done | lia]].
    assert (Z.log2 a < 1024) as HL2.
    { apply Z.log2_lt_pow2; [done|]. unfold float_overflow_at in Hlt.
      assert (0 < 2 ^ 970) by (by apply Z.pow_pos_nonneg). lia. }
    destruct (Z.eq_dec (Z.log2 a) 1023) as [E|NE].
    + subst m e. rewrite E in *. change (1023 - 52) with 971 in *.
      unfold round_half_even.
      pose proof (Z.div_mod a (2 ^ 971) ltac:(lia)) as Hdm.
      pose proof (Z.mod_pos_bound a (2 ^ 971) ltac:(lia)) as Hmb.
      unfold float_overflow_at in Hlt.
      destruct (Z.compare_spec (2 * (a mod 2 ^ 971)) (2 ^ 971)) as [Hc|Hc|Hc].
      * destruct (Z.even (a / 2 ^ 971)); lia.
      * lia.
      * lia.
    + assert (2 ^ (Z.log2 a + 1) <= 2 ^ 1023) by (apply Z.pow_le_mono_r; lia).
      assert (2 ^ 1023 < 2 ^ 1024) by (apply Z.pow_lt_mono_r; lia). lia.
  - unfold float_overflow_at in Hge.
    assert (2 ^ 53 <= a) as Hb.
    { assert (2 ^ 53 < 2 ^ 1024 - 2 ^ 970) by reflexivity. lia. }
    pose proof (round_53_bounds a Hb) as [Hlo Hhi].
    destruct (Z.log2_spec a Hpos) as [Hl1 Hl2].
    assert (53 <= Z.log2 a) as HL by (apply Z.log2_le_pow2; [lia|done]).
    unfold float_of_int. rewrite Z.abs_eq by lia.
    rewrite Z.max_r by lia.
    set (e := Z.log2 a - 52) in *.
    set (m := round_half_even a (2 ^ e)) in *.
    assert (2 ^ 1024 <= m * 2 ^ e) as Hov;
      [|by destruct (Z.leb_spec (2 ^ 1024) (m * 2 ^ e)); [|lia]].
    assert (1023 <= Z.log2 a) as HL2.
    { apply Z.log2_le_pow2; [done|].
      assert (2 ^ 1023 <= 2 ^ 1024 - 2 ^ 970) by (intros ?; discriminate).
      lia. }
    destruct (Z.eq_dec (Z.log2 a) 1023) as [E|NE].
    + subst m e. rewrite E in *. change (1023 - 52) with 971 in *.
      unfold round_half_even.
      pose proof (Z.div_mod a (2 ^ 971) ltac:(lia)) as Hdm.
      pose proof (Z.mod_pos_bound a (2 ^ 971) ltac:(lia)) as Hmb.
      change (Z.succ 1023) with 1024 in Hl2.
      destruct (Z.compare_spec (2 * (a mod 2 ^ 971)) (2 ^ 971)) as [Hc|Hc|Hc].
      * destruct (Z.even (a / 2 ^ 971)) eqn:Hev; [|lia].
        apply Z.even_spec in Hev as [k Hk]. lia.
      * lia.
      * lia.
    + assert (2 ^ 1024 <= 2 ^ Z.log2 a) by (apply Z.pow_le_mono_r; lia). lia.
Qed.

Lemma float_overflow_at_pos : 0 < float_overflow_at.
Proof. reflexivity. Qed.

(** Below the limit the division gives a double. *)
Lemma py_truediv_one_below q :
  0 < q -> q < float_overflow_at ->
  exists b, float_of_int q = Ok b /\ 0 < b
            /\ py_truediv_one q = Ok (float_inv b).
Proof.
  intros Hpos Hlt. pose proof (float_of_int_positive q Hpos) as H.
  destruct (Z.ltb_spec q float_overflow_at); [|lia].
  destruct H as (b & Hb & Hbpos). exists b. split; [done|]. split; [done|].
  unfold py_truediv_one. rewrite Hb.
  destruct (Z.eqb_spec b 0); [lia | done].
Qed.

(** From the limit on it raises. *)
Lemma py_truediv_one_overflow q :
  float_overflow_at <= q -> py_truediv_one q = Raise OverflowError.
Proof.
  intros Hge. pose proof float_overflow_at_pos as Hpos.
  pose proof (float_of_int_positive q ltac:(lia)) as H.
  destruct (Z.ltb_spec q float_overflow_at); [lia|].
  unfold py_truediv_one. by rewrite H.
Qed.

End FloatFacts.

Section FetchFacts.
Variable aget : string -> outcome FolderDetails.

Abbreviation fetch := (_fetch_children_recursively aget).
Abbreviation reach := (reach aget).
Abbreviation finite_hierarchy := (finite_hierarchy aget).
Abbreviation node_result := (node_result aget).

Lemma throttle_eq config :
  throttle config
  = if (0 <? qps_limit_of config)%Z
    then match py_truediv_one (qps_limit_of config) with
         | Ok delay => ([EvSleep delay], Ok tt)
         | Raise e => ([], Raise e)
         end
    else ([], Ok tt).
Proof.
  unfold throttle. destruct (0 <? _)%Z; [|done].
  by destruct (py_truediv_one _).
Qed.

Lemma throttle_nonpositive config :
  (qps_limit_of config <= 0)%Z -> throttle config = ([], Ok tt).
Proof.
  intros Hq. rewrite throttle_eq.
  destruct (Z.ltb_spec 0 (qps_limit_of config)); [lia | done].
Qed.

Lemma throttle_positive config :
  (0 < qps_limit_of config < float_overflow_at)%Z ->
  exists delay,
    py_truediv_one (qps_limit_of config) = Ok delay
    /\ throttle config = ([EvSleep delay], Ok tt).
Proof.
  intros [Hpos Hlt]. rewrite throttle_eq.
  destruct (Z.ltb_spec 0 (qps_limit_of config)); [|lia].
  destruct (py_truediv_one_below _ Hpos Hlt) as (b & _ & _ & ->). eauto.
Qed.

Lemma throttle_overflow config :
  (float_overflow_at <= qps_limit_of config)%Z ->
  throttle config = ([], Raise OverflowError).
Proof.
  intros Hge. pose proof float_overflow_at_pos as Hpos.
  rewrite throttle_eq.
  destruct (Z.ltb_spec 0 (qps_limit_of config)); [|lia].
  by rewrite py_truediv_one_overflow.
Qed.

Lemma throttle_ok config :
  (qps_limit_of config < float_overflow_at)%Z ->
  exists tr, throttle config = (tr, Ok tt) /\ agets tr = [].
Proof.
  intros Hlt. destruct (Z.le_gt_cases (qps_limit_of config) 0) as [Hq|Hq].
  - rewrite throttle_nonpositive by done. by exists [].
  - destruct (throttle_positive config) as (delay & _ & ->); [lia|].
    by exists [EvSleep delay].
Qed.

Lemma throttle_sleeps config ev :
  ev ∈ fst (throttle config) -> is_sleep ev = true.
Proof.
  rewrite throttle_eq. destruct (0 <? _)%Z; [|by intros ?%elem_of_nil].
  destruct (py_truediv_one _); simpl; [|by intros ?%elem_of_nil].
  by intros ->%list_elem_of_singleton.
Qed.

Lemma fetch_node_leaf config recurse n :
  node_type n <> "Folder" ->
  fetch_node aget config recurse n = ([], Ok (tree_node n [])).
Proof.
  intros Hne. unfold fetch_node.
  by destruct (String.eqb_spec (node_type n) "Folder").
Qed.

(** A folder, case by case. *)
Lemma fetch_node_folder config recurse n :
  node_type n = "Folder" ->
  fetch_node aget config recurse n
  = match throttle config with
    | (trT, Raise e) => (trT, Raise e)
    | (trT, Ok _) =>
        let tr0 := (trT ++ [EvAget (node_id n)])%list in
        match aget (node_id n) with
        | Raise e => (tr0, Raise e)
        | Ok fd =>
            match children fd with
            | None => (tr0, Raise TypeError)
            | Some [] => (tr0, Ok (tree_node n []))
            | Some (c :: cs) =>
                match recurse (c :: cs) with
                | (tr, Raise e) => ((tr0 ++ tr)%list, Raise e)
                | (tr, Ok kids_out) =>
                    ((tr0 ++ tr)%list, Ok (tree_node n kids_out))
                end
            end
        end
    end.
Proof.
  intros Hf. unfold fetch_node. rewrite Hf. cbn [String.eqb Ascii.eqb Bool.eqb].
  destruct (throttle config) as [trT [[]|eT]]; [|done].
  unfold bind at 1. unfold emit, bind at 1, lift.
  destruct (aget (node_id n)) as [fd|e]; cbn; [|done].
  destruct (children fd) as [[|c cs]|]; cbn; [done| |done].
  destruct (recurse (c :: cs)) as [tr [ko|e]]; cbn;
    by rewrite ?app_nil_r, <- ?app_assoc.
Qed.

(** *** The loop *)

Lemma fetch_loop_ok_inv body nodes tr out :
  fetch_loop body nodes = (tr, Ok out) ->
  Forall2 (fun n o => exists tr', body n = (tr', Ok o)) nodes out.
Proof.
  revert tr out. induction nodes as [|n ns IH]; intros tr out; simpl.
  - intros [= <- <-]. constructor.
  - intros (tr1 & d & tr2 & Hb & H & ->)%bind_ok_inv.
    apply bind_ok_inv in H as (tr3 & ds & tr4 & Hl & [= <- <-] & ->).
    constructor; eauto.
Qed.

Lemma fetch_loop_cons_ok body n ns tr1 d tr2 ds :
  body n = (tr1, Ok d) -> fetch_loop body ns = (tr2, Ok ds) ->
  fetch_loop body (n :: ns) = ((tr1 ++ tr2)%list, Ok (d :: ds)).
Proof.
  intros Hn Hns. simpl. unfold bind. rewrite Hn, Hns. simpl.
  by rewrite app_nil_r.
Qed.

Lemma fetch_loop_mono b1 b2 nodes tr out :
  (forall n tr o, b1 n = (tr, Ok o) -> b2 n = (tr, Ok o)) ->
  fetch_loop b1 nodes = (tr, Ok out) -> fetch_loop b2 nodes = (tr, Ok out).
Proof.
  intros Hb. revert tr out.
  induction nodes as [|n ns IH]; intros tr out; simpl; [done|].
  intros (tr1 & d & tr2 & Hn & H & ->)%bind_ok_inv.
  apply bind_ok_inv in H as (tr3 & ds & tr4 & Hl & [= <- <-] & ->).
  eapply bind_ok; [by apply Hb|]. eapply bind_ok; [by apply IH|done].
Qed.

Lemma fetch_loop_trace body nodes ev :
  ev ∈ fst (fetch_loop body nodes) ->
  exists n, n ∈ nodes /\ ev ∈ fst (body n).
Proof.
  induction nodes as [|n ns IH]; simpl; [by intros ?%elem_of_nil|].
  destruct (body n) as [tr1 [d|e]] eqn:Hn; simpl.
  - destruct (fetch_loop body ns) as [tr2 [ds|e]]; simpl in *;
      rewrite ?app_nil_r; intros [Hin|Hin]%elem_of_app.
    all: try (exists n; rewrite Hn; split; [by left | done]).
    all: destruct (IH Hin) as (n' & Hn' & Hev);
      exists n'; split; [by right | done].
  - intros Hin. exists n. rewrite Hn. split; [by left | done].
Qed.

Lemma fetch_node_mono config r1 r2 n tr o :
  (forall ns tr out, r1 ns = (tr, Ok out) -> r2 ns = (tr, Ok out)) ->
  fetch_node aget config r1 n = (tr, Ok o) ->
  fetch_node aget config r2 n = (tr, Ok o).
Proof.
  intros Hr. destruct (decide (node_type n = "Folder")) as [Hf|Hf].
  - rewrite !fetch_node_folder by done.
    destruct (throttle config) as [trT [[]|eT]]; [|done]. cbv zeta.
    destruct (aget (node_id n)) as [fd|e]; [|done].
    destruct (children fd) as [[|c cs]|]; [done| |done].
    destruct (r1 (c :: cs)) as [tr1 [ko|e]] eqn:H1; [|done].
    by rewrite (Hr _ _ _ H1).
  - by rewrite !fetch_node_leaf.
Qed.

Lemma fetch_trace_node config recurse n ev :
  ev ∈ fst (fetch_node aget config recurse n) ->
  node_type n = "Folder"
  /\ (ev ∈ fst (throttle config) \/ ev = EvAget (node_id n)
      \/ exists fd c cs,
           aget (node_id n) = Ok fd /\ children fd = Some (c :: cs)
           /\ ev ∈ fst (recurse (c :: cs))).
Proof.
  destruct (decide (node_type n = "Folder")) as [Hf|Hf].
  - rewrite fetch_node_folder by done.
    destruct (throttle config) as [trT [[]|eT]]; cbn [fst];
      [|intros Hin; split; [done | by left]].
    cbv zeta. intros Hin. split; [done|].
    assert (ev ∈ (trT ++ [EvAget (node_id n)])%list ->
            ev ∈ trT \/ ev = EvAget (node_id n)) as H0.
    { intros [?|?%list_elem_of_singleton]%elem_of_app; auto. }
    destruct (aget (node_id n)) as [fd|e]; [|destruct (H0 Hin); auto].
    destruct (children fd) as [[|c cs]|] eqn:Hc;
      [destruct (H0 Hin); auto| |destruct (H0 Hin); auto].
    destruct (recurse (c :: cs)) as [tr1 [ko|e]] eqn:H1; simpl in Hin;
      apply elem_of_app in Hin as [Hin|Hin];
      try (destruct (H0 Hin); by auto).
    all: right; right; exists fd, c, cs; by rewrite H1.
  - rewrite fetch_node_leaf by done. by intros ?%elem_of_nil.
Qed.

(** *** The recursion *)

Lemma fetch_S config d nodes :
  fetch config (S d) nodes
  = fetch_loop (fetch_node aget config (fetch config d)) nodes.
Proof. done. Qed.

Lemma fetch_mono config d nodes tr out :
  fetch config d nodes = (tr, Ok out) ->
  fetch config (S d) nodes = (tr, Ok out).
Proof.
  revert nodes tr out. induction d as [|d IH]; intros nodes tr out; [done|].
  rewrite (fetch_S config (S d)), (fetch_S config d).
  apply fetch_loop_mono. intros n tr' o. by apply fetch_node_mono.
Qed.

Lemma fetch_mono_le config d d' nodes tr out :
  (d <= d')%nat ->
  fetch config d nodes = (tr, Ok out) -> fetch config d' nodes = (tr, Ok out).
Proof. intros Hle H. induction Hle; [done|]. by apply fetch_mono. Qed.

(** Enough nesting gives a result on a finite hierarchy. *)
Lemma fetch_total config nodes :
  (qps_limit_of config < float_overflow_at)%Z ->
  finite_hierarchy nodes ->
  exists N tr out, forall d, (N <= d)%nat ->
    fetch config d nodes = (tr, Ok out).
Proof.
  intros Hq. induction 1 as [|n ns Hleaf Hns (N & tr & out & IH)
                  |n ns fd kids Hf Hget Hkids _ (Nk & trk & ko & IHk)
                     _ (N & tr & out & IH)].
  - exists 1%nat, [], []. intros [|d] Hd; [lia | done].
  - exists (S N), tr, (tree_node n [] :: out). intros [|d] Hd; [lia|].
    rewrite fetch_S.
    apply (fetch_loop_cons_ok _ _ _ [] _ tr out);
      [by apply fetch_node_leaf|].
    rewrite <- fetch_S. apply IH. lia.
  - destruct (throttle_ok config Hq) as (trT & HT & _).
    exists (S (Nk + N)),
      (((trT ++ [EvAget (node_id n)])
          ++ (match kids with [] => [] | _ => trk end)) ++ tr)%list,
      (tree_node n (match kids with [] => [] | _ => ko end) :: out).
    intros [|d] Hd; [lia|]. rewrite fetch_S.
    apply fetch_loop_cons_ok; [|rewrite <- fetch_S; apply IH; lia].
    rewrite fetch_node_folder by done. rewrite HT, Hget, Hkids. cbv zeta.
    destruct kids as [|c cs]; [by rewrite app_nil_r|].
    by rewrite (IHk d) by lia.
Qed.

Lemma fetch_node_result config d n tr o :
  fetch_node aget config (fetch config d) n = (tr, Ok o) ->
  node_result config d n o.
Proof.
  unfold node_result.
  destruct (String.eqb_spec (node_type n) "Folder") as [Hf|Hf].
  - rewrite fetch_node_folder by done.
    destruct (throttle config) as [trT [[]|eT]]; [|done]. cbv zeta.
    destruct (aget (node_id n)) as [fd|e]; [|done].
    destruct (children fd) as [[|c cs]|] eqn:Hc; [| |done].
    + intros [= <- <-]. exists []. split; [done|]. by exists fd, [].
    + destruct (fetch config d (c :: cs)) as [tr1 [ko|e]] eqn:H1; [|done].
      intros [= <- <-]. exists ko. split; [done|].
      exists fd, (c :: cs). eauto.
  - rewrite fetch_node_leaf by done. intros [= <- <-]. by exists [].
Qed.

Lemma fetch_shape config d nodes tr out :
  fetch config (S d) nodes = (tr, Ok out) ->
  Forall2 (node_result config d) nodes out.
Proof.
  rewrite fetch_S. intros H%fetch_loop_ok_inv.
  eapply Forall2_impl; [exact H|]. intros n o [tr' Hn].
  by eapply fetch_node_result.
Qed.

Lemma reach_nonempty nodes n : reach nodes n -> nodes <> [].
Proof.
  intros Hr Hnil.
  destruct Hr as [nodes n Hin|nodes m fd kids n Hin]; subst;
    by apply elem_of_nil in Hin.
Qed.

(** A result means that every folder the traversal meets has answered. *)
Lemma fetch_ok_reach config d nodes tr out n :
  fetch config d nodes = (tr, Ok out) ->
  reach nodes n -> node_type n = "Folder" ->
  exists fd kids, aget (node_id n) = Ok fd /\ children fd = Some kids.
Proof.
  intros H Hr Hf. revert d tr out H.
  induction Hr as [nodes n Hin|nodes m fd kids n Hin Hm Hget Hkids Hr IH];
    intros [|d] tr out H; try done; apply fetch_shape in H.
  - apply list_elem_of_lookup in Hin as [i Hi].
    destruct (Forall2_lookup_l _ _ _ _ _ H Hi) as (o & _ & ko & _ & Hres).
    rewrite Hf in Hres. destruct Hres as (fd & kids & ? & ? & _). eauto.
  - apply list_elem_of_lookup in Hin as [i Hi].
    destruct (Forall2_lookup_l _ _ _ _ _ H Hi) as (o & _ & ko & _ & Hres).
    rewrite Hm in Hres. destruct Hres as (fd' & kids' & Hg & Hk & Hrec).
    assert (kids' = kids) as -> by congruence.
    pose proof (reach_nonempty _ _ Hr) as Hne.
    destruct kids as [|c cs]; [done|]. destruct Hrec as [tr' Hrec].
    by eapply IH.
Qed.

(** Every detail fetch is for a folder the traversal meets, and every
    delay is the courtesy delay. *)
Lemma fetch_trace config d nodes ev :
  ev ∈ fst (fetch config d nodes) ->
  ev ∈ fst (throttle config)
  \/ exists n, reach nodes n /\ node_type n = "Folder"
               /\ ev = EvAget (node_id n).
Proof.
  revert nodes. induction d as [|d IH]; intros nodes;
    [by intros ?%elem_of_nil|].
  rewrite fetch_S.
  intros (n & Hin & Hev)%fetch_loop_trace.
  apply fetch_trace_node in Hev
    as [Hf [Ht|[->|(fd & c & cs & Hget & Hc & Hev)]]]; [by left| |].
  - right. exists n. split; [by constructor | done].
  - destruct (IH _ Hev) as [Ht|(n' & Hr & Hf' & ->)]; [by left|].
    right. exists n'. split; [|done]. by eapply reach_down.
Qed.

(** *** The quota only decides the delays *)

Lemma sim_refl {A} (m : M A) : sim m m.
Proof. done. Qed.

Lemma sim_bind {A B} (m1 m2 : M A) (k1 k2 : A -> M B) :
  sim m1 m2 -> (forall a, sim (k1 a) (k2 a)) ->
  sim (bind m1 k1) (bind m2 k2).
Proof.
  destruct m1 as [tr1 r1], m2 as [tr2 r2]. intros [Hr Ht] Hk.
  cbn [fst snd] in Hr, Ht. subst r2. unfold sim, bind.
  destruct r1 as [a|e]; [|done].
  destruct (Hk a) as [Hr' Ht'].
  destruct (k1 a) as [tr1' r1'], (k2 a) as [tr2' r2']. cbn [fst snd] in *.
  split; [done|]. unfold agets in *. by rewrite !List.filter_app, Ht, Ht'.
Qed.

Lemma throttle_sim c1 c2 :
  (qps_limit_of c1 < float_overflow_at)%Z ->
  (qps_limit_of c2 < float_overflow_at)%Z ->
  sim (throttle c1) (throttle c2).
Proof.
  intros (tr1 & -> & H1)%throttle_ok (tr2 & -> & H2)%throttle_ok.
  split; [done|]. cbn [fst]. by rewrite H1, H2.
Qed.

Lemma fetch_node_sim c1 c2 r1 r2 n :
  (qps_limit_of c1 < float_overflow_at)%Z ->
  (qps_limit_of c2 < float_overflow_at)%Z ->
  (forall ns, sim (r1 ns) (r2 ns)) ->
  sim (fetch_node aget c1 r1 n) (fetch_node aget c2 r2 n).
Proof.
  intros Hq1 Hq2 Hr. unfold fetch_node.
  destruct (String.eqb _ _); [|apply sim_refl].
  apply sim_bind; [by apply throttle_sim|]. intros _.
  apply sim_bind; [apply sim_refl|]. intros _.
  apply sim_bind; [apply sim_refl|]. intros fd.
  destruct (children fd) as [[|c cs]|]; try apply sim_refl.
  apply sim_bind; [apply Hr|]. intros ko. apply sim_refl.
Qed.

Lemma fetch_loop_sim b1 b2 nodes :
  (forall n, sim (b1 n) (b2 n)) ->
  sim (fetch_loop b1 nodes) (fetch_loop b2 nodes).
Proof.
  intros Hb. induction nodes as [|n ns IH]; simpl; [apply sim_refl|].
  apply sim_bind; [apply Hb|]. intros d.
  apply sim_bind; [apply IH|]. intros ds. apply sim_refl.
Qed.

Lemma fetch_sim c1 c2 d nodes :
  (qps_limit_of c1 < float_overflow_at)%Z ->
  (qps_limit_of c2 < float_overflow_at)%Z ->
  sim (fetch c1 d nodes) (fetch c2 d nodes).
Proof.
  intros Hq1 Hq2.
  revert nodes. induction d as [|d IH]; intros nodes; [apply sim_refl|].
  rewrite !fetch_S. apply fetch_loop_sim. intros n. by apply fetch_node_sim.
Qed.

(** From the limit on, a folder is neither slept for nor fetched. *)
Lemma fetch_node_overflow config recurse n :
  (float_overflow_at <= qps_limit_of config)%Z ->
  node_type n = "Folder" ->
  fetch_node aget config recurse n = ([], Raise OverflowError).
Proof.
  intros Hq Hf. rewrite fetch_node_folder by done.
  by rewrite throttle_overflow.
Qed.

(** C5. On a finite hierarchy whose folders all answer, under a quota
    the delay can be computed for (one below [2^1024 - 2^970]), enough
    nesting gives a result; every result has one dictionary per input node, in
    order, each with the node's attributes and a ["children"] list: empty
    for a node that is not a folder and for a folder without children,
    and the result of the same fetch on the children otherwise. Every
    detail fetch is for a folder, and a node that is not a folder causes
    no event at all. *)
Theorem fetch_children_structure config nodes :
  finite_hierarchy nodes ->
  ((qps_limit_of config < float_overflow_at)%Z ->
   exists N tr out, forall depth, (N <= depth)%nat ->
     fetch config depth nodes = (tr, Ok out))
  /\ (forall depth tr out,
        fetch config depth nodes = (tr, Ok out) ->
        length out = length nodes
        /\ Forall2 (node_result config (pred depth)) nodes out
        /\ (forall i, EvAget i ∈ tr ->
              exists n, reach nodes n /\ node_type n = "Folder"
                        /\ node_id n = i))
  /\ (forall n recurse,
        node_type n <> "Folder" ->
        fetch_node aget config recurse n = ([], Ok (tree_node n []))
        /\ dict_get "children" (node_dict n) = Some (JList [])).
Proof.
  intros Hfin. split; [intros Hq; by apply fetch_total|]. split.
  - intros [|d] tr out H; [done|]. pose proof (fetch_shape _ _ _ _ _ H) as Hs.
    split; [symmetry; by eapply Forall2_length|]. split; [done|].
    intros i Hin.
    destruct (fetch_trace config (S d) nodes (EvAget i)) as [Ht|Hn].
    + by rewrite H.
    + by apply throttle_sleeps in Ht.
    + destruct Hn as (n & Hr & Hf & [= ->]). eauto.
  - intros n recurse Hleaf. split; [by apply fetch_node_leaf | done].
Qed.

(** C10, amended. With a quota of zero or less the fetcher sleeps nowhere
    and divides nowhere. The delay step ends normally for the quotas
    below [2^1024 - 2^970] and for no other: below, the outcome and the
    detail fetches of a fetch are those of the fetch without delays; from
    there on, converting the quota to a [float] raises [OverflowError],
    and a folder is neither slept for nor fetched. *)
Theorem throttle_guarded config depth nodes :
  (qps_limit_of config <= 0)%Z ->
  throttle config = ([], Ok tt)
  /\ (forall ev, ev ∈ fst (fetch config depth nodes) -> is_sleep ev = false)
  /\ (forall config',
        (qps_limit_of config' < float_overflow_at)%Z ->
        (exists tr, throttle config' = (tr, Ok tt))
        /\ snd (fetch config depth nodes) = snd (fetch config' depth nodes)
        /\ agets (fst (fetch config depth nodes))
           = agets (fst (fetch config' depth nodes)))
  /\ (forall config',
        (float_overflow_at <= qps_limit_of config')%Z ->
        throttle config' = ([], Raise OverflowError)
        /\ (forall recurse n,
              node_type n = "Folder" ->
              fetch_node aget config' recurse n = ([], Raise OverflowError)))
  /\ py_truediv_one 0 = Raise ZeroDivisionError.
Proof.
  intros Hq. pose proof float_overflow_at_pos as Hpos.
  pose proof (throttle_nonpositive config Hq) as HT.
  split; [done|]. split; [|split; [|split; [|done]]].
  - intros ev [Ht|(n & _ & _ & ->)]%fetch_trace; [|done].
    rewrite HT in Ht. by apply elem_of_nil in Ht.
  - intros config' Hq'. split.
    + destruct (throttle_ok config' Hq') as (tr & Htr & _). eauto.
    + apply fetch_sim; [lia | done].
  - intros config' Hq'. split; [by apply throttle_overflow|].
    intros recurse n Hf. by apply fetch_node_overflow.
Qed.

End FetchFacts.

Example fetch_empty_folder :
  snd (_fetch_children_recursively demo_space None 2 [folder "f2"])
  = Ok [JDict [("id", JStr "f2"); ("name", JStr "f2");
               ("type", JStr "Folder"); ("icon", JStr "");
               ("children", JList [])]].
Proof. reflexivity. Qed.

Example fetch_two_levels :
  _fetch_children_recursively demo_space (quota 0) 2 [folder "f1"]
  = ([EvAget "f1"; EvAget "f2"],
     Ok [tree_node (folder "f1")
           [tree_node (folder "f2") []; tree_node (sheet "d1") []]]).
Proof. reflexivity. Qed.

Example fetch_too_deep :
  snd (_fetch_children_recursively demo_space None 1 [folder "f1"])
  = Raise RecursionError.
Proof. reflexivity. Qed.

Lemma demo_space_finite : finite_hierarchy demo_space [folder "f1"].
Proof.
  eapply fh_folder; [reflexivity..| |constructor].
  eapply fh_folder; [reflexivity..|constructor|].
  apply fh_leaf; [discriminate | constructor].
Qed.

Lemma fetch_children_structure_witness :
  finite_hierarchy demo_space [folder "f1"]
  /\ exists N tr out, forall depth, (N <= depth)%nat ->
       _fetch_children_recursively demo_space None depth [folder "f1"]
       = (tr, Ok out).
Proof.
  split; [exact demo_space_finite|].
  destruct (fetch_children_structure demo_space None [folder "f1"]
              demo_space_finite) as [Htotal _].
  apply Htotal. reflexivity.
Defined.

Lemma throttle_guarded_witness :
  (qps_limit_of (quota 0) <= 0)%Z
  /\ throttle (quota 0) = ([], Ok tt).
Proof.
  split; [simpl; lia|].
  apply (throttle_guarded demo_space (quota 0) 2 [folder "f1"]). simpl. lia.
Defined.

(** C10 as stated fails: the fetch is not well-defined for every integer
    quota. [POST /config] stores the quota it is given; with [2^1024] the
    division [1.0 / qps_limit] raises [OverflowError] at the first folder,
    before the delay and the detail fetch, where a quota of zero gives the
    tree; the tree endpoint then answers 500. *)
Lemma quota_overflow_breaks_fetch :
  let vika_config :=
    {| user_token := "token"; api_base := "https://api.vika.cn/fusion/v1";
       rate_limit_qps := 2 ^ 1024 |} in
  let s :=
    snd (set_config (fun _ _ => Ok tt) vika_config (Server false None ∅ ∅)) in
  config s = quota (2 ^ 1024)
  /\ py_truediv_one (2 ^ 1024) = Raise OverflowError
  /\ _fetch_children_recursively demo_space (quota (2 ^ 1024)) 2 [folder "f2"]
     = ([], Raise OverflowError)
  /\ _fetch_children_recursively demo_space (quota 0) 2 [folder "f2"]
     = ([EvAget "f2"], Ok [tree_node (folder "f2") []])
  /\ fst (get_datasheets 0 0 0 2 "default" "spc" s ([] : list json))
     = ([], Raise (HTTPException 500
                     "获取数据表列表失败: int too large to convert to float")).
Proof. cbv zeta. repeat split; vm_compute; reflexivity. Qed.

(** ** Request handlers *)

(** C1 fails on the code. The list read of sheet [dst1] is cached under a
    key that starts with [records:datasheet_id=], the create deletes the
    keys that contain [records:dst1]: the entry stays, and the read that
    follows is answered from it although the platform now holds the new
    record. *)
Theorem create_leaves_list_cached :
  let s0 := Server true None {[ dst1_list_key := Entry (JList []) 0 ]} ∅ in
  let created :=
    create_records 1 "default" "dst1" [[("Name", JStr "a")]] s0 [] in
  let listed :=
    get_records 1 1 1 "default" "dst1" None (Some 100%Z) None None
      (snd (fst created)) (snd created) in
  records_cache_key "dst1" None (Some 100%Z) None None = dst1_list_key
  /\ contains "records:dst1" dst1_list_key = false
  /\ fst (fst created) = Ok (success (JList [JDict [("Name", JStr "a")]]))
  /\ snd created = [JDict [("Name", JStr "a")]]
  /\ cache (snd (fst created)) !! dst1_list_key = Some (Entry (JList []) 0)
  /\ fst listed = Ok (success_cached (JList []) true).
Proof. cbv zeta. repeat split; vm_compute; reflexivity. Qed.

Section HandlerFacts.
Context {U RecordT : Type} `{!Vika U RecordT}.

(** C6. When the detail fetch of a folder met by the traversal fails,
    the fetcher raises at every nesting depth, and the tree endpoint
    answers with an error or with a tree it had cached before: it builds
    no fresh tree, and on a cache miss it answers 500 and stores
    nothing. *)
Theorem tree_failure_aborts now t_read t_store depth op space_id s u
    top n e :
  nodes_aall u space_id = Ok top ->
  reach (nodes_aget u space_id) top n ->
  node_type n = "Folder" ->
  nodes_aget u space_id (node_id n) = Raise e ->
  let res := get_datasheets now t_read t_store depth op space_id s u in
  let key := get_cache_key "full_nodes_tree" [("space_id", PyStr space_id)] in
  (forall config, exists tr e',
     _fetch_children_recursively (nodes_aget u space_id) config depth top
     = (tr, Raise e'))
  /\ (forall payload, snd (fst res) <> Ok (success_cached payload false))
  /\ (forall s1,
        dependencies now op s = (Ok tt, s1) ->
        not_none (fst (get_from_cache t_read key 3600 (cache s1))) = None ->
        (exists e', snd (fst res)
                    = Raise (http500 "获取数据表列表失败" e'))
        /\ cache (snd res)
           = snd (get_from_cache t_read key 3600 (cache s1))).
Proof.
  intros Hall Hreach Hf Hfail res key.
  assert (forall config, exists tr e',
            _fetch_children_recursively (nodes_aget u space_id) config
              depth top = (tr, Raise e')) as Hraise.
  { intros cfg.
    destruct (_fetch_children_recursively _ cfg depth top)
      as [tr [out|e']] eqn:Hfetch; [|by eauto].
    destruct (fetch_ok_reach _ _ _ _ _ _ _ Hfetch Hreach Hf)
      as (fd & kids & Hok & _). congruence. }
  split; [done|]. subst res. unfold get_datasheets. fold key.
  destruct (dependencies now op s) as [[[]|e0] s1] eqn:Hdep.
  - destruct (get_from_cache t_read key 3600 (cache s1)) as [cached c1]
      eqn:Hget.
    destruct (not_none cached) as [v|] eqn:Hnn; simpl.
    + split; [by intros payload [=]|]. intros s1' [= <-] Hmiss.
      rewrite Hget in Hmiss. simpl in Hmiss. congruence.
    + rewrite Hall. destruct (Hraise (config s1)) as (tr & e' & ->). simpl.
      split; [done|]. intros s1' [= <-] _. rewrite Hget. eauto.
  - simpl. split; [done|]. by intros s1' [=].
Qed.

(** *** Batch *)







End HandlerFacts.

Lemma demo_reach_f3 : reach demo_space [folder "f1"; folder "f3"] (folder "f3").
Proof. apply reach_here. apply elem_of_cons. right. by left. Qed.

Lemma tree_failure_aborts_witness :
  reach demo_space [folder "f1"; folder "f3"] (folder "f3")
  /\ demo_space "f3" = Raise (UpstreamError "node not found")
  /\ exists tr e',
    _fetch_children_recursively demo_space None 5 [folder "f1"; folder "f3"]
    = (tr, Raise e').
Proof.
  split; [exact demo_reach_f3|]. split; [reflexivity|].
  destruct (@tree_failure_aborts (list json) json demo_vika 0 0 0 5
              "default" "spc" (Server true None ∅ ∅) []
              [folder "f1"; folder "f3"] (folder "f3")
              (UpstreamError "node not found")) as [Hraise _];
    [reflexivity | exact demo_reach_f3 | reflexivity | reflexivity |].
  exact (Hraise None).
Defined.


(** * Further properties *)

(** ** Rate limiter *)

Section RateLimiterRuns.
Implicit Types (rl : gmap string (list Q)) (op : string).

Lemma prune_app t l1 l2 : prune t (l1 ++ l2) = (prune t l1 ++ prune t l2)%list.
Proof. apply List.filter_app. Qed.

Lemma prune_fresh t ts : Forall (fun a => (t - a < 1)%Q) (prune t ts).
Proof.
  apply Forall_forall. intros a Hin.
  apply list_elem_of_In, filter_In in Hin as [_ H]. by apply Qltb_lt.
Qed.

Lemma prune_later t t' ts : (t' <= t)%Q -> prune t (prune t' ts) = prune t ts.
Proof.
  intros Hle. induction ts as [|a ts IH]; [done|].
  destruct (Qlt_le_dec (t' - a) 1) as [H1|H1].
  - rewrite (prune_keep t' a ts H1).
    destruct (Qlt_le_dec (t - a) 1) as [H2|H2].
    + by rewrite !prune_keep, IH.
    + by rewrite !prune_drop, IH.
  - rewrite (prune_drop t' a ts H1), (prune_drop t a ts); [done | lra].
Qed.

Lemma rate_limit_check_other cfg t op rl op' :
  op' <> op -> snd (rate_limit_check cfg t op rl) !! op' = rl !! op'.
Proof.
  intros Hne. rewrite rate_limit_check_eq. cbv zeta.
  destruct (_ <=? _)%Z; simpl; by rewrite lookup_insert_ne.
Qed.

Lemma rate_limit_check_window cfg t op rl :
  snd (rate_limit_check cfg t op rl) !! op
  = Some (prune t (default [] (rl !! op))
            ++ (if is_ok (fst (rate_limit_check cfg t op rl)) then [t] else []))%list.
Proof.
  rewrite rate_limit_check_eq. cbv zeta.
  destruct (_ <=? _)%Z; simpl; by rewrite lookup_insert_eq, ?app_nil_r.
Qed.

(** X1. Checks for two different operation names do not see each other:
    in either order both get the same answer and the limiter ends in the
    same state. *)
Theorem rate_limit_operations_commute cfg t1 t2 op1 op2 rl :
  op1 <> op2 ->
  let a := rate_limit_check cfg t1 op1 rl in
  let b := rate_limit_check cfg t2 op2 (snd a) in
  let b' := rate_limit_check cfg t2 op2 rl in
  let a' := rate_limit_check cfg t1 op1 (snd b') in
  fst a = fst a' /\ fst b = fst b' /\ snd b = snd a'.
Proof.
  intros Hne a b b' a'. subst a b b' a'.
  rewrite (rate_limit_check_eq cfg t2 op2 (snd _)),
    (rate_limit_check_eq cfg t1 op1 (snd _)). cbv zeta.
  rewrite !rate_limit_check_other by done.
  rewrite !rate_limit_check_eq. cbv zeta.
  repeat destruct (_ <=? _)%Z; simpl;
    (split; [done|]; split; [done|]; by apply insert_insert_ne).
Qed.

(** X2. After a check at time [t] the window of the checked operation
    holds only timestamps less than one second old, in their old order,
    followed by [t] exactly when the call was admitted. *)
Theorem rate_limit_window_fresh cfg t op rl :
  let res := rate_limit_check cfg t op rl in
  let w' := default [] (snd res !! op) in
  Forall (fun a => (t - a < 1)%Q) w'
  /\ w' = (prune t (default [] (rl !! op))
             ++ (if is_ok (fst res) then [t] else []))%list
  /\ prune t (default [] (rl !! op)) `sublist_of` default [] (rl !! op).
Proof.
  intros res w'. subst res w'. rewrite rate_limit_check_window. simpl.
  split; [|split; [done|]].
  - apply Forall_app. split; [apply prune_fresh|].
    destruct (is_ok _); constructor; [|constructor]. lra.
  - unfold prune. generalize (default [] (rl !! op)).
    induction l as [|a l IH]; simpl; [constructor|].
    destruct (Qltb _ _); by constructor.
Qed.

Lemma check_step_bounded cfg st call :
  (0 <= qps_limit_of cfg)%Z ->
  bounded (qps_limit_of cfg) (fst st) ->
  bounded (qps_limit_of cfg) (fst (check_step cfg st call)).
Proof.
  intros Hq Hb. unfold check_step.
  pose proof (rate_limit_check_bounded cfg (fst call) (snd call) (fst st) Hq Hb)
    as H.
  by destruct (rate_limit_check _ _ _ _).
Qed.

Lemma foldl_check_step_bounded cfg calls st :
  (0 <= qps_limit_of cfg)%Z ->
  bounded (qps_limit_of cfg) (fst st) ->
  bounded (qps_limit_of cfg) (fst (foldl (check_step cfg) st calls)).
Proof.
  intros Hq. revert st. induction calls as [|c calls IH]; intros st Hb; [done|].
  simpl. apply IH. by apply check_step_bounded.
Qed.

(** X3. Under one positive quota, in every state the service reaches
    from its start no window holds more timestamps than the quota, and a
    call that is denied there leaves the limiter exactly as it was. *)
Theorem rate_limit_denied_unchanged cfg calls t op :
  (0 < qps_limit_of cfg)%Z ->
  let rl := fst (run_checks cfg calls) in
  bounded (qps_limit_of cfg) rl
  /\ (is_ok (fst (rate_limit_check cfg t op rl)) = false ->
      snd (rate_limit_check cfg t op rl) = rl).
Proof.
  intros Hq rl.
  assert (bounded (qps_limit_of cfg) rl) as Hb.
  { apply foldl_check_step_bounded; [lia|]. intros o w. simpl.
    by rewrite lookup_empty. }
  split; [done|]. rewrite rate_limit_check_eq. cbv zeta.
  destruct (_ <=? _)%Z eqn:Hle; simpl; [intros _ | done].
  apply Z.leb_le in Hle.
  destruct (rl !! op) as [w|] eqn:Hop; simpl in *; [|lia].
  pose proof (Hb op w Hop). pose proof (prune_length t w).
  rewrite prune_full by lia. by apply insert_id.
Qed.

Lemma admitted_times_app op log c :
  admitted_times op (log ++ [c])
  = (admitted_times op log
       ++ (if String.eqb (snd c) op then [fst c] else []))%list.
Proof.
  unfold admitted_times. rewrite List.filter_app, map_app. simpl.
  by destruct (String.eqb _ _).
Qed.

Lemma check_step_inv cfg T st call :
  (0 <= qps_limit_of cfg)%Z -> (T <= fst call)%Q ->
  run_inv cfg T st -> run_inv cfg (fst call) (check_step cfg st call).
Proof.
  intros Hq HT [Hb Hw]. split; [by apply check_step_bounded|].
  intros op t Ht. unfold check_step.
  destruct (rate_limit_check cfg (fst call) (snd call) (fst st)) as [r rl]
    eqn:Hcheck.
  assert (rl = snd (rate_limit_check cfg (fst call) (snd call) (fst st)))
    as -> by (by rewrite Hcheck).
  assert (r = fst (rate_limit_check cfg (fst call) (snd call) (fst st)))
    as Hr by (by rewrite Hcheck).
  cbn [fst snd]. destruct (String.eqb_spec (snd call) op) as [<-|Hne].
  - rewrite rate_limit_check_window. cbn [from_option id]. rewrite <- Hr.
    rewrite prune_app, prune_later by done.
    rewrite Hw by lra.
    destruct (is_ok r); [|by rewrite !app_nil_r].
    by rewrite admitted_times_app, String.eqb_refl, prune_app.
  - rewrite rate_limit_check_other by done. rewrite Hw by lra.
    destruct (is_ok r); [|done].
    rewrite admitted_times_app.
    destruct (String.eqb_spec (snd call) op); [done|]. by rewrite app_nil_r.
Qed.

Lemma foldl_check_step_inv cfg calls T st :
  (0 <= qps_limit_of cfg)%Z -> nondecreasing_from T calls ->
  run_inv cfg T st ->
  run_inv cfg (last_time T calls) (foldl (check_step cfg) st calls).
Proof.
  intros Hq. revert T st.
  induction calls as [|c calls IH]; intros T st Hmono Hinv; [done|].
  destruct Hmono as [HT Hmono]. simpl. apply IH; [done|].
  by apply (check_step_inv cfg T).
Qed.

(** X4. The sliding window keeps its promise: when the clock does not go
    back and the quota is not negative, the calls of one operation admitted
    during the second that ends at any time from the last call on are never
    more than the quota. *)
Theorem rate_limit_sliding_window cfg calls T t op :
  (0 <= qps_limit_of cfg)%Z ->
  nondecreasing_from T calls ->
  (last_time T calls <= t)%Q ->
  (Z.of_nat (length (prune t (admitted_times op (snd (run_checks cfg calls)))))
   <= qps_limit_of cfg)%Z.
Proof.
  intros Hq Hmono Ht.
  destruct (foldl_check_step_inv cfg calls T (∅, []) Hq Hmono) as [Hb Hw].
  { split; [intros o w; simpl; by rewrite lookup_empty|].
    intros o t' _. cbn [fst snd]. by rewrite lookup_empty. }
  unfold run_checks. rewrite <- (Hw op t Ht).
  pose proof (prune_length t
                (default [] (fst (foldl (check_step cfg) (∅, []) calls) !! op)))
    as Hlen.
  destruct (fst (foldl (check_step cfg) (∅, []) calls) !! op) as [w|] eqn:Hop;
    cbn [from_option id] in *.
  - pose proof (Hb op w Hop). unfold prune in *. lia.
  - unfold prune in *. simpl in *. lia.
Qed.

End RateLimiterRuns.

Lemma rate_limit_operations_commute_witness :
  "records" <> "tree"
  /\ snd (rate_limit_check None 0 "tree"
            (snd (rate_limit_check None 0 "records" ∅)))
     = snd (rate_limit_check None 0 "records"
              (snd (rate_limit_check None 0 "tree" ∅))).
Proof.
  assert ("records" <> "tree") as Hne by discriminate.
  split; [exact Hne|].
  apply (rate_limit_operations_commute None 0 0 "records" "tree" ∅ Hne).
Defined.

Lemma rate_limit_denied_unchanged_witness :
  (0 < qps_limit_of None)%Z
  /\ bounded (qps_limit_of None)
       (fst (run_checks None [(0%Q, "default"); (0%Q, "default")])).
Proof.
  assert (0 < qps_limit_of None)%Z as Hq by (simpl; lia).
  split; [exact Hq|].
  apply (rate_limit_denied_unchanged None
           [(0%Q, "default"); (0%Q, "default")] 0 "default" Hq).
Defined.

Lemma rate_limit_sliding_window_witness :
  (0 <= qps_limit_of None)%Z
  /\ nondecreasing_from 0
       [(0%Q, "default"); ((1 # 2)%Q, "default"); ((1 # 2)%Q, "default")]
  /\ (Z.of_nat
        (length
           (prune (1 # 2)
              (admitted_times "default"
                 (snd (run_checks None
                         [(0%Q, "default"); ((1 # 2)%Q, "default");
                          ((1 # 2)%Q, "default")])))))
      <= qps_limit_of None)%Z.
Proof.
  assert (0 <= qps_limit_of None)%Z as Hq by (simpl; lia).
  assert (nondecreasing_from 0
            [(0%Q, "default"); ((1 # 2)%Q, "default"); ((1 # 2)%Q, "default")])
    as Hmono by (simpl; repeat split; lra).
  split; [exact Hq|]. split; [exact Hmono|].
  apply (rate_limit_sliding_window None _ 0 (1 # 2) "default" Hq Hmono).
  simpl. lra.
Defined.

(** ** Cache store and cache endpoints *)

Section CacheMore.
Context {V : Type}.
Implicit Types (c : gmap string (entry V)) (key pattern : string).

Lemma get_from_cache_subseteq now key max_age c :
  snd (get_from_cache now key max_age c) ⊆ c.
Proof.
  unfold get_from_cache. destruct (c !! key) as [e|]; [|done].
  destruct (Qltb _ _); simpl; [done|apply delete_subseteq].
Qed.

Lemma get_from_cache_hit_unchanged now key max_age c v :
  fst (get_from_cache now key max_age c) = Some v ->
  snd (get_from_cache now key max_age c) = c.
Proof.
  unfold get_from_cache. destruct (c !! key) as [e|]; [|done].
  by destruct (Qltb _ _).
Qed.

(** X5. A read is idempotent and only ever removes its own key: reading
    again at the same time gives the same answer and the same cache, the
    cache after a read is part of the cache before, and every other key
    keeps its entry. *)
Theorem get_from_cache_idempotent now key max_age c :
  let r := get_from_cache now key max_age c in
  get_from_cache now key max_age (snd r) = r
  /\ snd r ⊆ c
  /\ (forall key', key' <> key -> snd r !! key' = c !! key')
  /\ (forall v, fst r = Some v -> snd r = c).
Proof.
  unfold get_from_cache. destruct (c !! key) as [e|] eqn:Hk.
  - destruct (Qltb _ _) eqn:Hlt; simpl.
    + rewrite Hk, Hlt. repeat split; done.
    + rewrite lookup_delete_eq. repeat split; try done.
      * apply delete_subseteq.
      * intros key' Hne. by apply lookup_delete_ne.
  - simpl. rewrite Hk. repeat split; done.
Qed.

Lemma size_foldl_delete c (ks : list string) :
  NoDup ks -> (forall k, k ∈ ks -> is_Some (c !! k)) ->
  (size (foldl (fun m k => delete k m) c ks) + length ks)%nat = size c.
Proof.
  revert c. induction ks as [|k ks IH]; intros c Hnd Hin; simpl; [lia|].
  apply NoDup_cons in Hnd as [Hk Hnd].
  assert ((size (foldl (fun m k0 => delete k0 m) (delete k c) ks)
           + length ks)%nat = size (delete k c)) as Hrest.
  { apply IH; [done|]. intros k' Hk'.
    rewrite lookup_delete_ne; [apply Hin; by right|]. by intros ->. }
  rewrite map_size_delete_Some in Hrest by (apply Hin; by left).
  destruct (Hin k) as [e He]; [by left|].
  assert (size c <> 0%nat).
  { intros Hz%map_size_empty_iff. by rewrite Hz, lookup_empty in He. }
  lia.
Qed.

Lemma keys_to_delete_NoDup pattern c : NoDup (keys_to_delete pattern c).
Proof.
  unfold keys_to_delete.
  assert (NoDup (map fst (map_to_list c))) as Hnd
    by apply NoDup_fst_map_to_list.
  revert Hnd. generalize (map fst (map_to_list c)).
  induction l as [|k l IH]; simpl; [done|].
  intros [Hk Hnd]%NoDup_cons. destruct (contains pattern k); [|by apply IH].
  apply NoDup_cons. split; [|by apply IH].
  intros Hin%list_elem_of_In%filter_In. apply Hk.
  apply list_elem_of_In. tauto.
Qed.

(** X6. Pattern invalidation counts what it deletes, is idempotent and
    commutes: the count it logs is exactly the number of entries that
    disappear, a second pass with the same pattern deletes nothing, and
    two patterns can be cleared in either order. *)
Theorem clear_cache_pattern_compose p q c :
  let r := clear_cache_pattern p c in
  (size (fst r) + snd r)%nat = size c
  /\ fst r ⊆ c
  /\ clear_cache_pattern p (fst r) = (fst r, 0%nat)
  /\ fst (clear_cache_pattern q (fst r))
     = fst (clear_cache_pattern p (fst (clear_cache_pattern q c))).
Proof.
  intros r. subst r. split; [|split; [|split]].
  - unfold clear_cache_pattern. simpl.
    apply size_foldl_delete; [apply keys_to_delete_NoDup|].
    by intros k [_ H]%elem_of_keys_to_delete.
  - apply map_subseteq_spec. intros k e.
    rewrite lookup_clear_cache_pattern. by destruct (contains p k).
  - assert (keys_to_delete p (fst (clear_cache_pattern p c)) = []) as Hnil.
    { destruct (keys_to_delete p _) as [|k ks] eqn:Hks; [done|].
      assert (k ∈ keys_to_delete p (fst (clear_cache_pattern p c))) as Hin
        by (rewrite Hks; by left).
      apply elem_of_keys_to_delete in Hin as [Hc [e He]].
      rewrite lookup_clear_cache_pattern, Hc in He. done. }
    unfold clear_cache_pattern at 1. by rewrite Hnil.
  - apply map_eq. intros k. rewrite !lookup_clear_cache_pattern.
    by destruct (contains p k), (contains q k).
Qed.

End CacheMore.

Lemma contains_empty key : contains "" key = true.
Proof. apply contains_substring. by exists "", key. Qed.

(** X7. [DELETE /cache] always succeeds and touches only the cache: with
    a pattern, the missing-or-empty test agrees with the substring test
    (the empty pattern is in every key), so exactly the keys that contain
    the pattern go; without one, every entry goes. *)
Theorem clear_cache_effect pattern s :
  let res := clear_cache pattern s in
  is_ok (fst res) = true
  /\ rate_limiter (snd res) = rate_limiter s
  /\ config (snd res) = config s
  /\ vika_client (snd res) = vika_client s
  /\ (forall key,
        cache (snd res) !! key
        = match pattern with
          | Some p => if contains p key then None else cache s !! key
          | None => None
          end).
Proof.
  unfold clear_cache. destruct pattern as [p|]; [|by repeat split].
  destruct (String.eqb_spec p "") as [->|Hne]; simpl.
  - repeat split; try done. intros key. by rewrite contains_empty.
  - repeat split; try done. intros key. apply lookup_clear_cache_pattern.
Qed.

Lemma split_head_app a b : split_head (a +:+ ":" +:+ b) = split_head a.
Proof.
  induction a as [|c a IH]; [done|]. rewrite app_cons. simpl.
  destruct (Ascii.eqb c ":"); [done|]. by rewrite IH.
Qed.

Lemma split_head_id s : contains ":" s = false -> split_head s = s.
Proof.
  induction s as [|c s IH]; [done|].
  change (contains ":" (String c s))
    with (String.prefix ":" (String c s) || contains ":" s).
  intros [Hp Hc]%orb_false_iff. simpl in *.
  destruct (Ascii.eqb_spec c ":") as [->|Hne].
  - by destruct s.
  - by rewrite IH.
Qed.

Lemma get_cache_key_head op kw :
  split_head (get_cache_key op kw) = split_head op.
Proof.
  unfold get_cache_key. destruct (map key_part (sorted_items kw)) as [|x xs];
    [done|].
  change (String.concat ":" (op :: x :: xs))
    with (op +:+ ":" +:+ String.concat ":" (x :: xs)).
  apply split_head_app.
Qed.

(** X8. A key names its operation: for an operation name without a colon
    the part of the key before the first colon is the operation name, a
    call without keywords has the operation name as its key, and two
    different operations never share a key, whatever their keywords. *)
Theorem cache_key_names_operation op1 op2 kw1 kw2 :
  contains ":" op1 = false -> contains ":" op2 = false ->
  split_head (get_cache_key op1 kw1) = op1
  /\ get_cache_key op1 [] = op1
  /\ (op1 <> op2 -> get_cache_key op1 kw1 <> get_cache_key op2 kw2).
Proof.
  intros H1 H2. split; [|split; [done|]].
  - by rewrite get_cache_key_head, split_head_id.
  - intros Hne Heq. apply Hne.
    rewrite <- (split_head_id op1 H1), <- (split_head_id op2 H2).
    by rewrite <- (get_cache_key_head op1 kw1), Heq, get_cache_key_head.
Qed.

Lemma cache_key_names_operation_witness :
  contains ":" "records" = false
  /\ contains ":" "record" = false
  /\ split_head
       (get_cache_key "records" [("datasheet_id", PyStr "dst1")])
     = "records".
Proof.
  assert (contains ":" "records" = false) as H1 by reflexivity.
  assert (contains ":" "record" = false) as H2 by reflexivity.
  split; [exact H1|]. split; [exact H2|].
  apply (cache_key_names_operation "records" "record"
           [("datasheet_id", PyStr "dst1")] [] H1 H2).
Defined.

Section StatsFacts.

Lemma keys_of_type_cons ty k keys :
  keys_of_type ty (k :: keys)
  = ((if String.eqb (split_head k) ty then 1 else 0) + keys_of_type ty keys)%nat.
Proof. unfold keys_of_type. simpl. by destruct (String.eqb _ _). Qed.

Lemma foldl_count_type_lookup m keys ty :
  foldl count_type m keys !! ty
  = match keys_of_type ty keys with
    | O => m !! ty
    | S n => Some (default 0 (m !! ty) + S n)%nat
    end.
Proof.
  revert m. induction keys as [|k keys IH]; intros m; [done|].
  simpl. rewrite IH, keys_of_type_cons. unfold count_type.
  destruct (String.eqb_spec (split_head k) ty) as [->|Hne].
  - rewrite lookup_insert_eq. simpl.
    destruct (keys_of_type ty keys); f_equal; lia.
  - by rewrite lookup_insert_ne.
Qed.

Lemma sum_counts_insert (m : gmap string nat) k v :
  (sum_counts (<[k := v]> m) + default 0 (m !! k))%nat
  = (sum_counts m + v)%nat.
Proof.
  unfold sum_counts. destruct (m !! k) as [x|] eqn:Hk; simpl.
  - rewrite (map_fold_delete_L _ _ k x m); [|intros; lia|done].
    rewrite <- (insert_delete_eq m k v).
    rewrite map_fold_insert_L; [lia|intros; lia|apply lookup_delete_eq].
  - rewrite map_fold_insert_L; [lia|intros; lia|done].
Qed.

Lemma sum_counts_foldl m keys :
  sum_counts (foldl count_type m keys) = (sum_counts m + length keys)%nat.
Proof.
  revert m. induction keys as [|k keys IH]; intros m; simpl; [lia|].
  rewrite IH. unfold count_type.
  pose proof (sum_counts_insert m (split_head k)
                (default 0 (m !! split_head k) + 1)%nat). lia.
Qed.

(** X9. The cache statistics add up: every type that is reported has the
    number of keys that start with it (a positive number, a type without
    keys is not reported), the numbers sum to the total size, an entry a
    handler stored under [get_cache_key] is counted under its operation
    name, and every operation of the limiter is reported with the length
    of its window. *)
Theorem cache_stats_counts s ty op :
  let st := cache_stats s in
  let keys := map fst (map_to_list (cache s)) in
  size_by_type st !! ty
  = (match keys_of_type ty keys with O => None | S n => Some (S n) end)
  /\ sum_counts (size_by_type st) = total_size st
  /\ total_size st = length keys
  /\ (forall kw, contains ":" op = false ->
        is_Some (cache s !! get_cache_key op kw) ->
        exists n, size_by_type st !! op = Some (S n))
  /\ rate_limiter_stats st !! op = length <$> rate_limiter s !! op.
Proof.
  intros st keys. subst st. unfold cache_stats. cbn [size_by_type total_size
    rate_limiter_stats]. fold keys.
  assert (length keys = size (cache s)) as Hlen.
  { unfold keys. by rewrite length_map, length_map_to_list. }
  split; [|split; [|split; [done|split]]].
  - rewrite foldl_count_type_lookup, lookup_empty.
    by destruct (keys_of_type ty keys).
  - rewrite sum_counts_foldl. unfold sum_counts. rewrite map_fold_empty. lia.
  - intros kw Hop [e He]. rewrite foldl_count_type_lookup, lookup_empty.
    assert (get_cache_key op kw ∈ keys) as Hin.
    { unfold keys. apply list_elem_of_fmap. exists (get_cache_key op kw, e).
      split; [done|]. by apply elem_of_map_to_list. }
    assert (keys_of_type op keys <> 0%nat) as Hpos.
    { unfold keys_of_type. intros Hz%length_zero_iff_nil.
      assert (In (get_cache_key op kw)
                (List.filter (fun k => String.eqb (split_head k) op) keys))
        as Hf.
      { apply filter_In. split; [by apply list_elem_of_In|].
        rewrite get_cache_key_head, split_head_id by done.
        apply String.eqb_refl. }
      by rewrite Hz in Hf. }
    destruct (keys_of_type op keys) as [|n]; [done|]. by exists n.
  - apply lookup_fmap.
Qed.

End StatsFacts.

(** ** More on the request handlers *)

Lemma dependencies_frame now op s :
  let d := dependencies now op s in
  cache (snd d) = cache s /\ config (snd d) = config s
  /\ vika_client (snd d) = vika_client s
  /\ (fst d = Ok tt
      \/ exists c msg, fst d = Raise (HTTPException c msg)
                       /\ (c = 429 \/ c = 500)%Z)
  /\ (vika_client s = false ->
      d = (Raise (HTTPException 500 "维格表客户端未初始化"), s)).
Proof.
  unfold dependencies, get_vika_client. destruct (vika_client s) eqn:Hc.
  - rewrite rate_limit_check_eq. cbv zeta.
    destruct (_ <=? _)%Z; simpl; repeat split; eauto 10; done.
  - simpl. repeat split; eauto 10.
Qed.

Lemma with_cache_same s : with_cache (cache s) s = s.
Proof. by destruct s. Qed.

Section MoreHandlerFacts.
Context {U RecordT : Type} `{!Vika U RecordT} `{!VikaReads U RecordT}.

(** X10. What [POST /records] does and does not do: the cache loses the
    keys that contain [records:<datasheet_id>] when the create succeeds and
    is untouched otherwise; a request stopped by a dependency does not
    reach the platform, and without a client it does not even use up
    quota; every failure is an HTTP error 429 or 500. *)
Theorem create_records_effect now op datasheet_id records s u :
  let res := create_records now op datasheet_id records s u in
  let r := fst (fst res) in
  let s' := snd (fst res) in
  (forall key,
     cache s' !! key
     = if is_ok r && contains ("records:" +:+ datasheet_id) key
       then None else cache s !! key)
  /\ config s' = config s /\ vika_client s' = vika_client s
  /\ (forall e, fst (dependencies now op s) = Raise e ->
      snd res = u /\ r = Raise e /\ s' = snd (dependencies now op s))
  /\ (vika_client s = false -> s' = s)
  /\ ((exists payload, r = Ok (success payload))
      \/ exists c msg, r = Raise (HTTPException c msg)
                       /\ (c = 429 \/ c = 500)%Z).
Proof.
  intros res r s'. subst res r s'. unfold create_records.
  destruct (dependencies_frame now op s) as (Hc & Hcfg & Hcl & Hr & Hno).
  destruct (dependencies now op s) as [[[]|e] s1] eqn:Hdep;
    cbn [fst snd] in *.
  - destruct (records_acreate u (JStr datasheet_id) (JList (map JDict records)))
      as [[result|e] u']; cbn -[clear_cache_pattern contains].
    + split; [|repeat split; try done].
      * intros key. by rewrite lookup_clear_cache_pattern, Hc.
      * intros Hv. specialize (Hno Hv). done.
      * left. eauto.
    + split; [|repeat split; try done].
      * intros key. by rewrite Hc.
      * intros Hv. specialize (Hno Hv). done.
      * right. unfold http500. eauto 10.
  - split; [|repeat split; try done].
    + intros key. by rewrite Hc.
    + congruence.
    + intros Hv. specialize (Hno Hv). by injection Hno.
    + right. destruct Hr as [?|(c & msg & [= ->] & Hcode)]; [done|]. eauto 10.
Qed.

(** X11. Read-through: after a list read that went to the platform, an
    identical read that is admitted within five minutes of the store is
    answered from the cache with the same data, whatever the platform
    holds by then. *)
Theorem get_records_read_through now t_read t_store op datasheet_id view_id
    page_size page_token filter_formula s u payload s1 now' op' t_read' s2 :
  get_records now t_read t_store op datasheet_id view_id page_size page_token
    filter_formula s u
  = (Ok (success_cached payload false), s1) ->
  dependencies now' op' s1 = (Ok tt, s2) ->
  (t_read' - t_store < 300)%Q ->
  forall t_store' u',
    get_records now' t_read' t_store' op' datasheet_id view_id page_size
      page_token filter_formula s1 u'
    = (Ok (success_cached payload true), s2).
Proof.
  intros Hfirst Hdep Hfresh t_store' u'.
  unfold get_records in Hfirst.
  destruct (dependencies now op s) as [[[]|e] s0]; [|done].
  destruct (get_from_cache t_read _ 300 (cache s0)) as [cached c1].
  destruct (not_none cached) as [v|]; [done|].
  destruct (records_aall u datasheet_id _) as [recs|e]; [|done].
  injection Hfirst as <- <-.
  unfold get_records. rewrite Hdep.
  destruct (dependencies_frame now' op' (with_cache
              (set_cache t_store
                 (records_cache_key datasheet_id view_id page_size page_token
                    filter_formula) (JList (map to_dict recs)) c1) s0))
    as (Hc & _). rewrite Hdep in Hc. simpl in Hc.
  rewrite (get_from_cache_fresh _ _ _ _ (Entry (JList (map to_dict recs)) t_store));
    [| rewrite Hc; apply lookup_insert_eq | done].
  simpl. by rewrite with_cache_same.
Qed.

(** X12. A failed list read is never cached: when the platform raises, the
    reply is no fresh list, the cache only ever loses the expired entry of
    this key, and on a miss the reply is the 500 error with the message of
    the exception and nothing is stored. *)
Theorem get_records_failure_not_cached now t_read t_store op datasheet_id
    view_id page_size page_token filter_formula s u e :
  records_aall u datasheet_id
    (query_params view_id page_size page_token filter_formula) = Raise e ->
  let res :=
    get_records now t_read t_store op datasheet_id view_id page_size
      page_token filter_formula s u in
  let key :=
    records_cache_key datasheet_id view_id page_size page_token
      filter_formula in
  (forall payload, fst res <> Ok (success_cached payload false))
  /\ cache (snd res) ⊆ cache s
  /\ (is_ok (fst (dependencies now op s)) = true ->
      not_none (fst (get_from_cache t_read key 300 (cache s))) = None ->
      fst res = Raise (http500 "获取记录失败" e)
      /\ cache (snd res) = snd (get_from_cache t_read key 300 (cache s))).
Proof.
  intros Hfail res key. subst res. unfold get_records. fold key.
  destruct (dependencies_frame now op s) as (Hc & _).
  destruct (dependencies now op s) as [[[]|e0] s1] eqn:Hdep; simpl in *.
  - rewrite Hc.
    pose proof (get_from_cache_subseteq t_read key 300 (cache s)) as Hsub.
    pose proof (get_from_cache_hit_unchanged t_read key 300 (cache s))
      as Hhit.
    destruct (get_from_cache t_read key 300 (cache s)) as [cached c1] eqn:Hget.
    simpl in *. destruct (not_none cached) as [v|] eqn:Hnn; simpl.
    + repeat split; try done.
    + rewrite Hfail. simpl. repeat split; done.
  - repeat split; try done. by rewrite Hc.
Qed.

Lemma lookup_clear_record_caches datasheet_id record_id
    (c : gmap string (entry json)) key :
  clear_record_caches datasheet_id record_id c !! key
  = if contains ("record:" +:+ datasheet_id +:+ ":" +:+ record_id) key
       || contains ("records:" +:+ datasheet_id) key
    then None else c !! key.
Proof.
  unfold clear_record_caches. rewrite !lookup_clear_cache_pattern.
  by destruct (contains _ key), (contains _ key).
Qed.

(** X13. What [PUT /records] and [DELETE /records/...] do to the cache:
    after a successful call the keys that contain
    [record:<datasheet_id>:<record_id>] or [records:<datasheet_id>] are
    gone and all others keep their entries; a call that fails, at a
    dependency or at the platform, leaves the cache as it was. *)
Theorem write_handlers_invalidate now op datasheet_id record_id fields s u
    key :
  let p1 := "record:" +:+ datasheet_id +:+ ":" +:+ record_id in
  let p2 := "records:" +:+ datasheet_id in
  let upd := update_record now op datasheet_id record_id fields s u in
  let del := delete_record now op datasheet_id record_id s u in
  cache (snd (fst upd)) !! key
  = (if is_ok (fst (fst upd)) && (contains p1 key || contains p2 key)
     then None else cache s !! key)
  /\ cache (snd (fst del)) !! key
     = (if is_ok (fst (fst del)) && (contains p1 key || contains p2 key)
        then None else cache s !! key)
  /\ (is_ok (fst (dependencies now op s)) = false ->
      snd upd = u /\ snd del = u).
Proof.
  intros p1 p2 upd del. subst upd del. unfold update_record, delete_record.
  destruct (dependencies_frame now op s) as (Hc & _).
  destruct (dependencies now op s) as [[[]|e] s1] eqn:Hdep;
    cbn [fst snd] in *; [|by rewrite Hc].
  destruct (records_aupdate u _ _) as [[r1|e1] u1];
    destruct (records_adelete u _ _) as [[r2|e2] u2];
    cbn -[clear_record_caches contains];
    rewrite ?lookup_clear_record_caches, Hc; done.
Qed.

End MoreHandlerFacts.

(** X16. [POST /config] replaces the configuration before it builds the
    client, so the new quota is in force even when the constructor fails
    (the client then stays as it was); it never touches the cache or the
    limiter. After a success [GET /config] reports the new base address
    and quota and an initialised client. [GET /config] does not depend on
    the token. *)
Theorem set_config_effect make_client vc s :
  let res := set_config make_client vc s in
  config (snd res) = Some vc
  /\ qps_limit_of (config (snd res)) = rate_limit_qps vc
  /\ cache (snd res) = cache s
  /\ rate_limiter (snd res) = rate_limiter s
  /\ vika_client (snd res) = (is_ok (fst res) || vika_client s)
  /\ is_ok (fst res) = is_ok (make_client (user_token vc) (api_base vc))
  /\ (is_ok (fst res) = true ->
      get_config (snd res)
      = JDict [("success", JBool true);
               ("data", JDict [("api_base", JStr (api_base vc));
                               ("rate_limit_qps", JInt (rate_limit_qps vc));
                               ("client_initialized", JBool true)])])
  /\ (forall token,
        get_config
          (Server (vika_client (snd res))
             (Some {| user_token := token; api_base := api_base vc;
                      rate_limit_qps := rate_limit_qps vc |})
             (cache s) (rate_limiter s))
        = get_config (snd res)).
Proof.
  unfold set_config.
  destruct (make_client (user_token vc) (api_base vc)) as [[]|e]; simpl;
    repeat split; done.
Qed.

Section PacingFacts.
Variable aget : string -> outcome FolderDetails.

Lemma pace_app d ids1 ids2 :
  pace d (ids1 ++ ids2) = (pace d ids1 ++ pace d ids2)%list.
Proof. apply flat_map_app. Qed.

Lemma pace_elem d ids i : i ∈ ids -> EvAget i ∈ pace d ids.
Proof.
  induction ids as [|j ids IH]; [by intros ?%elem_of_nil|].
  intros [->|Hin]%elem_of_cons; cbn.
  - right. by left.
  - right. right. by apply IH.
Qed.

Lemma paced_nil d : paced d [].
Proof. by exists []. Qed.

Lemma paced_app d tr1 tr2 : paced d tr1 -> paced d tr2 -> paced d (tr1 ++ tr2).
Proof.
  intros [ids1 ->] [ids2 ->]. exists (ids1 ++ ids2)%list.
  by rewrite pace_app.
Qed.

Lemma paced_bind {A B} d (m : M A) (k : A -> M B) :
  paced d (fst m) -> (forall a, paced d (fst (k a))) ->
  paced d (fst (bind m k)).
Proof.
  destruct m as [tr [a|e]]; simpl; [|done]. intros Hm Hk.
  specialize (Hk a). destruct (k a) as [tr' r]. by apply paced_app.
Qed.

Lemma paced_fetch_node d config recurse n :
  throttle config = ([EvSleep d], Ok tt) ->
  (forall ns, paced d (fst (recurse ns))) ->
  paced d (fst (fetch_node aget config recurse n)).
Proof.
  intros HT Hr. destruct (decide (node_type n = "Folder")) as [Hf|Hf].
  - rewrite fetch_node_folder, HT by done. cbv zeta. cbn [fst app].
    assert (paced d [EvSleep d; EvAget (node_id n)]) as H0
      by (by exists [node_id n]).
    destruct (aget (node_id n)) as [fd|e]; [|done].
    destruct (children fd) as [[|c cs]|]; [done| |done].
    specialize (Hr (c :: cs)).
    destruct (recurse (c :: cs)) as [tr [ko|e]]; by apply (paced_app d [_; _]).
  - rewrite fetch_node_leaf by done. apply paced_nil.
Qed.

Lemma paced_fetch_loop d body nodes :
  (forall n, paced d (fst (body n))) -> paced d (fst (fetch_loop body nodes)).
Proof.
  intros Hb. induction nodes as [|n ns IH]; simpl; [apply paced_nil|].
  apply paced_bind; [apply Hb|]. intros j.
  apply paced_bind; [apply IH|]. intros js. apply paced_nil.
Qed.

Lemma paced_fetch d config depth nodes :
  throttle config = ([EvSleep d], Ok tt) ->
  paced d (fst (_fetch_children_recursively aget config depth nodes)).
Proof.
  intros HT.
  revert nodes. induction depth as [|k IH]; intros nodes; [apply paced_nil|].
  rewrite fetch_S. apply paced_fetch_loop. intros n.
  by apply paced_fetch_node.
Qed.

(** *** The folders of a reply *)

Lemma folder_ids_tree_node n kids_out :
  folder_ids (tree_node n kids_out)
  = ((if String.eqb (node_type n) "Folder" then [node_id n] else [])
     ++ flat_map folder_ids kids_out)%list.
Proof.
  unfold tree_node. cbn -[String.eqb flat_map]. by rewrite !app_nil_r.
Qed.

Lemma pace_fetch_node d config recurse n tr o :
  throttle config = ([EvSleep d], Ok tt) ->
  (forall ns tr' out,
     recurse ns = (tr', Ok out) -> tr' = pace d (flat_map folder_ids out)) ->
  fetch_node aget config recurse n = (tr, Ok o) ->
  tr = pace d (folder_ids o).
Proof.
  intros HT Hr. destruct (String.eqb_spec (node_type n) "Folder") as [Hf|Hf].
  - rewrite fetch_node_folder, HT by done. cbv zeta.
    destruct (aget (node_id n)) as [fd|e]; [|done].
    destruct (children fd) as [[|c cs]|]; [|  |done].
    + intros [= <- <-]. rewrite folder_ids_tree_node, Hf. done.
    + destruct (recurse (c :: cs)) as [tr1 [ko|e]] eqn:H1; [|done].
      intros [= <- <-]. rewrite folder_ids_tree_node, Hf.
      rewrite (Hr _ _ _ H1). cbn [String.eqb Ascii.eqb Bool.eqb].
      by rewrite pace_app.
  - rewrite fetch_node_leaf by done. intros [= <- <-].
    rewrite folder_ids_tree_node.
    by destruct (String.eqb_spec (node_type n) "Folder").
Qed.

Lemma pace_fetch_loop d body nodes tr out :
  (forall n tr' o, body n = (tr', Ok o) -> tr' = pace d (folder_ids o)) ->
  fetch_loop body nodes = (tr, Ok out) ->
  tr = pace d (flat_map folder_ids out).
Proof.
  intros Hb. revert tr out.
  induction nodes as [|n ns IH]; intros tr out; simpl.
  - by intros [= <- <-].
  - intros (tr1 & o & tr2 & Hn & H & ->)%bind_ok_inv.
    apply bind_ok_inv in H as (tr3 & os & tr4 & Hl & [= <- <-] & ->).
    rewrite app_nil_r. cbn [flat_map]. rewrite pace_app.
    by rewrite (Hb _ _ _ Hn), (IH _ _ Hl).
Qed.

Lemma pace_fetch d config depth nodes tr out :
  throttle config = ([EvSleep d], Ok tt) ->
  _fetch_children_recursively aget config depth nodes = (tr, Ok out) ->
  tr = pace d (flat_map folder_ids out).
Proof.
  intros HT. revert nodes tr out.
  induction depth as [|k IH]; intros nodes tr out; [done|].
  rewrite fetch_S. apply pace_fetch_loop. intros n tr' o.
  by apply pace_fetch_node.
Qed.

(** *** The first folder *)

Lemma bind_trace {A B} (m : M A) (k : A -> M B) :
  exists tr, fst (bind m k) = (fst m ++ tr)%list.
Proof.
  destruct m as [tr1 [a|e]]; simpl.
  - destruct (k a) as [tr2 r]. by exists tr2.
  - exists []. by rewrite app_nil_r.
Qed.

Lemma fetch_node_first d config recurse n :
  throttle config = ([EvSleep d], Ok tt) ->
  node_type n = "Folder" ->
  exists tr,
    fst (fetch_node aget config recurse n)
    = EvSleep d :: EvAget (node_id n) :: tr.
Proof.
  intros HT Hf. rewrite fetch_node_folder, HT by done. cbv zeta.
  destruct (aget (node_id n)) as [fd|e]; [|by exists []].
  destruct (children fd) as [[|c cs]|]; [by exists []| |by exists []].
  destruct (recurse (c :: cs)) as [tr1 [ko|e]]; by exists tr1.
Qed.

Lemma fetch_loop_first (body : Node -> M json) leaves f rest ev1 ev2 tr0 :
  Forall (fun n => exists o, body n = ([], Ok o)) leaves ->
  fst (body f) = ev1 :: ev2 :: tr0 ->
  exists tr,
    fst (fetch_loop body (leaves ++ f :: rest)) = ev1 :: ev2 :: tr.
Proof.
  intros Hl Hf. induction Hl as [|n ns [o Hn] _ IH]; simpl.
  - destruct (bind_trace (body f)
                (fun d => ds <~ fetch_loop body rest;; ret (d :: ds)))
      as [tr ->].
    rewrite Hf. by exists (tr0 ++ tr)%list.
  - rewrite Hn. unfold bind at 1.
    destruct IH as [tr IH].
    destruct (bind (fetch_loop body (ns ++ f :: rest)) _) as [tr' r] eqn:Hb.
    destruct (bind_trace (fetch_loop body (ns ++ f :: rest))
                (fun ds => ret (o :: ds))) as [tr1 H1].
    rewrite Hb, IH in H1. cbn [fst] in H1. subst tr'. cbn. eauto.
Qed.

(** X17. Under a positive quota the delay can be computed for, the
    fetcher paces itself. Its events are, folder after folder, one sleep
    of the double [1.0 / quota] and then the detail fetch of that folder,
    and nothing else, whether the fetch ends with a tree or with an
    exception; the folders are folders the traversal meets, and in a
    reply they are exactly the folders of the tree, each once, a folder
    before the folders below it; the first folder of the input list is
    slept for and fetched first, whatever comes after. *)
Theorem fetch_paced config depth nodes :
  (0 < qps_limit_of config < float_overflow_at)%Z ->
  exists delay,
    py_truediv_one (qps_limit_of config) = Ok delay
    /\ (forall tr out,
          _fetch_children_recursively aget config depth nodes = (tr, Ok out) ->
          tr = pace delay (flat_map folder_ids out))
    /\ (exists ids,
          fst (_fetch_children_recursively aget config depth nodes)
          = pace delay ids
          /\ Forall (fun i => exists n, reach aget nodes n
                                        /\ node_type n = "Folder"
                                        /\ node_id n = i) ids)
    /\ (forall leaves f rest,
          nodes = (leaves ++ f :: rest)%list ->
          Forall (fun n => node_type n <> "Folder") leaves ->
          node_type f = "Folder" -> depth <> 0%nat ->
          exists tr,
            fst (_fetch_children_recursively aget config depth nodes)
            = EvSleep delay :: EvAget (node_id f) :: tr).
Proof.
  intros Hq. destruct (throttle_positive config Hq) as (delay & Hd & HT).
  exists delay. split; [done|]. split; [|split].
  - intros tr out. by apply pace_fetch.
  - destruct (paced_fetch delay config depth nodes HT) as [ids Hids].
    exists ids. split; [done|]. apply Forall_forall. intros i Hi.
    apply (pace_elem delay) in Hi. rewrite <- Hids in Hi.
    apply fetch_trace in Hi as [Ht|(n & Hr & Hf & [= ->])]; [|by eauto].
    rewrite HT in Ht. by apply list_elem_of_singleton in Ht.
  - intros leaves f rest -> Hleaves Hf Hdepth.
    destruct depth as [|k]; [done|]. rewrite fetch_S.
    destruct (fetch_node_first delay config
                (_fetch_children_recursively aget config k) f HT Hf)
      as [tr0 H0].
    eapply fetch_loop_first; [|exact H0].
    eapply Forall_impl; [exact Hleaves|]. intros n Hn. simpl in Hn.
    exists (tree_node n []). by apply fetch_node_leaf.
Qed.

End PacingFacts.

Lemma fetch_paced_witness :
  (0 < qps_limit_of None < float_overflow_at)%Z
  /\ exists delay,
       py_truediv_one (qps_limit_of None) = Ok delay
       /\ forall tr out,
            _fetch_children_recursively demo_space None 3 [folder "f1"]
            = (tr, Ok out) ->
            tr = pace delay (flat_map folder_ids out).
Proof.
  assert (0 < qps_limit_of None < float_overflow_at)%Z as Hq
    by (split; reflexivity).
  split; [exact Hq|].
  destruct (fetch_paced demo_space None 3 [folder "f1"] Hq)
    as (delay & Hd & Hok & _).
  exists delay. split; [exact Hd | exact Hok].
Defined.

(** The delay is the double, not the quotient: a quota of two gives half
    a second, a quota of three the double next to a third. *)
Example paced_two_levels :
  _fetch_children_recursively demo_space None 3 [folder "f1"]
  = ([EvSleep (1 # 2); EvAget "f1"; EvSleep (1 # 2); EvAget "f2"],
     Ok [tree_node (folder "f1")
           [tree_node (folder "f2") []; tree_node (sheet "d1") []]]).
Proof. reflexivity. Qed.

Example py_truediv_one_three :
  py_truediv_one 3 = Ok (6004799503160661 # 18014398509481984)
  /\ ~ (6004799503160661 # 18014398509481984 == 1 # 3)%Q.
Proof. split; [reflexivity | discriminate]. Qed.

Example py_truediv_one_limit :
  py_truediv_one float_overflow_at = Raise OverflowError
  /\ py_truediv_one (float_overflow_at - 1) = Ok (1 # 2 ^ 1024).
Proof. split; vm_compute; reflexivity. Qed.

Lemma dict_get_set k k' v d :
  dict_get k (dict_set k' v d)
  = if String.eqb k k' then Some v else dict_get k d.
Proof.
  induction d as [|[k0 v0] d IH]; simpl.
  - by destruct (String.eqb k k').
  - destruct (String.eqb_spec k' k0) as [->|Hne]; simpl.
    + by destruct (String.eqb k k0).
    + destruct (String.eqb_spec k k0) as [->|Hne'].
      * destruct (String.eqb_spec k0 k'); [congruence|done].
      * done.
Qed.

Section SpaceConfigurationFacts.
Context {U RecordT : Type} `{!Vika U RecordT} `{!VikaReads U RecordT}.

Lemma datasheet_ids_inv dss tasks :
  datasheet_ids dss = Ok tasks ->
  Forall2 (fun ds task =>
             ds = JDict (fst task) /\ dict_get "id" (fst task) = Some (snd task))
    dss tasks.
Proof.
  revert tasks. induction dss as [|ds dss IH]; intros tasks; simpl.
  - intros [= <-]. constructor.
  - destruct ds as [| | | |l|items]; try done.
    destruct (dict_get "id" items) as [i|] eqn:Hid; [|done].
    destruct (datasheet_ids dss) as [rest|e]; [|done].
    intros [= <-]. constructor; [done|]. by apply IH.
Qed.

Lemma datasheet_detail_cases (u : U) items i :
  exists vs fs,
    datasheet_detail u (items, i) = with_details items vs fs
    /\ (((exists e, views_aall u i = Raise e)
         \/ (exists e, fields_aall u i = Raise e)) ->
        vs = JList [] /\ fs = JList [])
    /\ (forall views fields,
          views_aall u i = Ok (JDict views) ->
          fields_aall u i = Ok (JDict fields) ->
          vs = default (JList []) (dict_get "views" views)
          /\ fs = default (JList []) (dict_get "fields" fields)).
Proof.
  unfold datasheet_detail.
  destruct (views_aall u i) as [views|e1], (fields_aall u i) as [fields|e2].
  - destruct (get_or_empty "views" views) as [vs|] eqn:Hv,
      (get_or_empty "fields" fields) as [fs|] eqn:Hf.
    + exists vs, fs. split; [done|]. split.
      * intros [[e ?]|[e ?]]; done.
      * intros views' fields' [= ->] [= ->]. simpl in *. by simplify_eq.
    + exists (JList []), (JList []). split; [done|]. split; [done|].
      intros views' fields' [= ->] [= ->]. done.
    + exists (JList []), (JList []). split; [done|]. split; [done|].
      intros views' fields' [= ->] [= ->]. done.
    + exists (JList []), (JList []). split; [done|]. split; [done|].
      intros views' fields' [= ->] [= ->]. done.
  - exists (JList []), (JList []). repeat split; done.
  - exists (JList []), (JList []). repeat split; done.
  - exists (JList []), (JList []). repeat split; done.
Qed.

(** X15. The space configuration degrades per datasheet: on a miss, with
    the space information and the datasheet list fetched and every
    datasheet carrying an [id], the reply succeeds, is cached, and holds
    one entry per datasheet in order; an entry is the datasheet's own
    items with [views] and [fields] set, both to empty lists as soon as
    one of its two fetches fails, and to what the platform holds when both
    answer with dictionaries. *)
Theorem space_configuration_degrades now t_read t_store op space_id s u s1
    info dss tasks :
  dependencies now op s = (Ok tt, s1) ->
  not_none
    (fst (get_from_cache t_read
            (get_cache_key "space_config" [("space_id", PyStr space_id)])
            1800 (cache s1))) = None ->
  aget_space_info u space_id = Ok info ->
  datasheets_alist u space_id = Ok dss ->
  datasheet_ids dss = Ok tasks ->
  let key := get_cache_key "space_config" [("space_id", PyStr space_id)] in
  let res :=
    get_space_configuration now t_read t_store op space_id s u in
  let details := map (datasheet_detail u) tasks in
  let result := JDict [("space", info); ("datasheets", JList details)] in
  fst res = Ok (success_cached result false)
  /\ cache (snd res) !! key = Some (Entry result t_store)
  /\ length details = length dss
  /\ Forall2 (fun ds task =>
                ds = JDict (fst task)
                /\ dict_get "id" (fst task) = Some (snd task)) dss tasks
  /\ (forall j items i,
        tasks !! j = Some (items, i) ->
        exists vs fs,
          details !! j = Some (with_details items vs fs)
          /\ (((exists e, views_aall u i = Raise e)
               \/ (exists e, fields_aall u i = Raise e)) ->
              vs = JList [] /\ fs = JList [])
          /\ (forall views fields,
                views_aall u i = Ok (JDict views) ->
                fields_aall u i = Ok (JDict fields) ->
                vs = default (JList []) (dict_get "views" views)
                /\ fs = default (JList []) (dict_get "fields" fields))
          /\ (forall k,
                dict_get k (dict_set "fields" fs (dict_set "views" vs items))
                = if String.eqb k "fields" then Some fs
                  else if String.eqb k "views" then Some vs
                  else dict_get k items)).
Proof.
  intros Hdep Hmiss Hinfo Hlist Hids key res details result.
  subst res. unfold get_space_configuration. fold key. rewrite Hdep.
  fold key in Hmiss.
  destruct (get_from_cache t_read key 1800 (cache s1)) as [cached c1].
  simpl in Hmiss. rewrite Hmiss, Hinfo, Hlist, Hids. fold details result.
  pose proof (datasheet_ids_inv _ _ Hids) as Hall.
  split; [done|]. split; [apply lookup_insert_eq|].
  split; [unfold details; rewrite length_map; symmetry;
          by eapply Forall2_length|].
  split; [done|].
  intros j items i Hj.
  destruct (datasheet_detail_cases u items i) as (vs & fs & Hd & Hfail & Hok).
  exists vs, fs. split.
  { unfold details. by rewrite list_lookup_fmap, Hj, <- Hd. }
  split; [done|]. split; [done|].
  intros k. by rewrite !dict_get_set.
Qed.

End SpaceConfigurationFacts.

Section TreeAndBatchFacts.
Context {U RecordT : Type} `{!Vika U RecordT}.

(** X18. The tree is fetched once: after a request that built the tree,
    a request for the same space admitted within the hour of the store is
    answered from the cache with the same tree, without a single detail
    fetch or delay, whatever the nesting allowed and whatever the platform
    holds by then. *)
Theorem get_datasheets_read_through now t_read t_store depth op space_id s u
    tr payload s1 now' op' t_read' s2 :
  get_datasheets now t_read t_store depth op space_id s u
  = (tr, Ok (success_cached payload false), s1) ->
  dependencies now' op' s1 = (Ok tt, s2) ->
  (t_read' - t_store < 3600)%Q ->
  forall t_store' depth' u',
    get_datasheets now' t_read' t_store' depth' op' space_id s1 u'
    = ([], Ok (success_cached payload true), s2).
Proof.
  intros Hfirst Hdep Hfresh t_store' depth' u'.
  unfold get_datasheets in Hfirst.
  destruct (dependencies now op s) as [[[]|e] s0]; [|done].
  destruct (get_from_cache t_read _ 3600 (cache s0)) as [cached c1].
  destruct (not_none cached) as [v|]; [done|].
  destruct (nodes_aall u space_id) as [top|e]; [|done].
  destruct (_fetch_children_recursively _ _ depth top) as [tr0 [out|e]];
    [|done].
  injection Hfirst as <- <- <-.
  unfold get_datasheets. rewrite Hdep.
  destruct (dependencies_frame now' op' (with_cache
              (set_cache t_store
                 (get_cache_key "full_nodes_tree" [("space_id", PyStr space_id)])
                 (JList out) c1) s0)) as (Hc & _).
  rewrite Hdep in Hc. simpl in Hc.
  rewrite (get_from_cache_fresh _ _ _ _ (Entry (JList out) t_store));
    [| rewrite Hc; apply lookup_insert_eq | done].
  simpl. by rewrite with_cache_same.
Qed.

(** X19. Operations the batch cannot run never reach the platform: an
    operation whose type is missing or is none of the three known ones
    gets the unsupported-type failure entry, one of a known type whose data
    lacks [datasheet_id] (or is no dictionary) gets the failure entry of
    that exception, and in both cases the platform is left as it was. *)
Theorem batch_item_rejected operation (u : U) :
  let op_type := dict_get "type" operation in
  let op_data := default (JDict []) (dict_get "data" operation) in
  let known :=
    op_type_is op_type "create_record" || op_type_is op_type "update_record"
    || op_type_is op_type "delete_record" in
  (known = false ->
   batch_item operation u
   = (item_failure ("不支持的操作类型: " +:+ op_type_str op_type), u))
  /\ (forall e, known = true ->
        subscript op_data "datasheet_id" = Raise e ->
        batch_item operation u = (item_failure (exn_str e), u))
  /\ (dict_get "data" operation = None -> known = true ->
      batch_item operation u = (item_failure "'datasheet_id'", u))
  /\ batch_item [] u = (item_failure "不支持的操作类型: None", u).
Proof.
  intros op_type op_data known. subst known.
  unfold batch_item, batch_try. fold op_type op_data.
  split; [|split; [|split]].
  - intros [[-> ->]%orb_false_iff ->]%orb_false_iff. done.
  - intros e Hk He. rewrite He.
    by repeat destruct (op_type_is op_type _).
  - intros Hd Hk. unfold op_data. rewrite Hd. simpl.
    by repeat destruct (op_type_is op_type _).
  - done.
Qed.

End TreeAndBatchFacts.

Lemma get_records_read_through_witness :
  get_records 0 0 0 "default" "dst1" None (Some 100%Z) None None fresh_server
    false
  = (Ok (success_cached (JList []) false),
     snd (get_records 0 0 0 "default" "dst1" None (Some 100%Z) None None
            fresh_server false))
  /\ get_records 1 1 1 "default" "dst1" None (Some 100%Z) None None
       (snd (get_records 0 0 0 "default" "dst1" None (Some 100%Z) None None
               fresh_server false)) true
     = (Ok (success_cached (JList []) true),
        snd (dependencies 1 "default"
               (snd (get_records 0 0 0 "default" "dst1" None (Some 100%Z) None
                       None fresh_server false)))).
Proof.
  assert (get_records 0 0 0 "default" "dst1" None (Some 100%Z) None None
            fresh_server false
          = (Ok (success_cached (JList []) false),
             snd (get_records 0 0 0 "default" "dst1" None (Some 100%Z) None
                    None fresh_server false))) as Hfirst by reflexivity.
  split; [exact Hfirst|].
  apply (get_records_read_through _ _ _ _ _ _ _ _ _ _ _ _ _ 1 "default" 1 _
           Hfirst); [reflexivity | vm_compute; reflexivity].
Defined.

Lemma get_records_failure_not_cached_witness :
  records_aall true "dst1" (query_params None (Some 100%Z) None None)
  = Raise (UpstreamError "platform down")
  /\ cache (snd (get_records 0 0 0 "default" "dst1" None (Some 100%Z) None None
                   fresh_server true)) ⊆ cache fresh_server.
Proof.
  assert (records_aall true "dst1" (query_params None (Some 100%Z) None None)
          = Raise (UpstreamError "platform down")) as Hfail by reflexivity.
  split; [exact Hfail|].
  apply (get_records_failure_not_cached 0 0 0 "default" "dst1" None
           (Some 100%Z) None None fresh_server true _ Hfail).
Defined.

Lemma get_datasheets_read_through_witness :
  get_datasheets 0 0 0 5 "default" "spc" fresh_server false
  = (fst (fst (get_datasheets 0 0 0 5 "default" "spc" fresh_server false)),
     Ok (success_cached
           (JList [tree_node (folder "f1")
                     [tree_node (folder "f2") []; tree_node (sheet "d1") []]])
           false),
     snd (get_datasheets 0 0 0 5 "default" "spc" fresh_server false))
  /\ fst (get_datasheets 1 1 1 0 "default" "spc"
            (snd (get_datasheets 0 0 0 5 "default" "spc" fresh_server false))
            true)
     = ([], Ok (success_cached
                  (JList [tree_node (folder "f1")
                            [tree_node (folder "f2") [];
                             tree_node (sheet "d1") []]])
                  true)).
Proof.
  assert (get_datasheets 0 0 0 5 "default" "spc" fresh_server false
          = (fst (fst (get_datasheets 0 0 0 5 "default" "spc" fresh_server
                         false)),
             Ok (success_cached
                   (JList [tree_node (folder "f1")
                             [tree_node (folder "f2") [];
                              tree_node (sheet "d1") []]])
                   false),
             snd (get_datasheets 0 0 0 5 "default" "spc" fresh_server false)))
    as Hfirst by reflexivity.
  split; [exact Hfirst|].
  rewrite (get_datasheets_read_through _ _ _ _ _ _ _ _ _ _ _ 1 "default" 1
             (snd (dependencies 1 "default"
                     (snd (get_datasheets 0 0 0 5 "default" "spc" fresh_server
                             false))))
             Hfirst); [reflexivity | reflexivity | vm_compute; reflexivity].
Defined.

Lemma space_configuration_degrades_witness :
  dependencies 0 "default" fresh_server
  = (Ok tt, snd (dependencies 0 "default" fresh_server))
  /\ fst (get_space_configuration 0 0 0 "default" "spc" fresh_server false)
     = Ok (success_cached
             (JDict [("space", JDict [("id", JStr "spc")]);
                     ("datasheets",
                      JList [JDict [("id", JStr "dst1"); ("name", JStr "one");
                                    ("views", JList [JStr "grid"]);
                                    ("fields", JList [JStr "Name"])];
                             JDict [("id", JStr "dst2"); ("name", JStr "two");
                                    ("views", JList []);
                                    ("fields", JList [])]])])
             false).
Proof.
  assert (dependencies 0 "default" fresh_server
          = (Ok tt, snd (dependencies 0 "default" fresh_server))) as Hdep
    by reflexivity.
  split; [exact Hdep|].
  destruct (space_configuration_degrades 0 0 0 "default" "spc" fresh_server
              false _ (JDict [("id", JStr "spc")])
              [JDict [("id", JStr "dst1"); ("name", JStr "one")];
               JDict [("id", JStr "dst2"); ("name", JStr "two")]]
              [([("id", JStr "dst1"); ("name", JStr "one")], JStr "dst1");
               ([("id", JStr "dst2"); ("name", JStr "two")], JStr "dst2")]
              Hdep) as [Hres _]; [reflexivity..|].
  exact Hres.
Defined.

(** ** The keys of single records and the patterns of the write handlers *)

Section RecordKeyFacts.

Lemma colons_app a b : colons (a +:+ b) = (colons a + colons b)%nat.
Proof. induction a as [|c a IH]; [done|]. rewrite app_cons. simpl. lia. Qed.

Lemma colons_free s : contains ":" s = false -> colons s = 0%nat.
Proof.
  induction s as [|c s IH]; [done|].
  change (contains ":" (String c s))
    with (String.prefix ":" (String c s) || contains ":" s).
  intros [Hp Hc]%orb_false_iff. simpl in *.
  destruct (Ascii.eqb_spec c ":") as [->|Hne]; [by destruct s|]. by apply IH.
Qed.

Lemma split_head_free s : colons s = 0%nat -> split_head s = s.
Proof.
  induction s as [|c s IH]; [done|]. simpl.
  destruct (Ascii.eqb c ":"); [done|]. intros H. by rewrite IH.
Qed.

Lemma split_head_at a b : colons a = 0%nat -> split_head (a +:+ ":" +:+ b) = a.
Proof. intros H. by rewrite split_head_app, split_head_free. Qed.

Lemma split_tail_at a b : colons a = 0%nat -> split_tail (a +:+ ":" +:+ b) = b.
Proof.
  induction a as [|c a IH]; [done|]. rewrite app_cons. simpl.
  destruct (Ascii.eqb c ":"); [done|]. apply IH.
Qed.

Lemma split_at_colon s :
  colons s <> 0%nat ->
  s = split_head s +:+ ":" +:+ split_tail s
  /\ colons (split_head s) = 0%nat
  /\ colons s = S (colons (split_tail s)).
Proof.
  induction s as [|c s IH]; [done|]. simpl.
  destruct (Ascii.eqb_spec c ":") as [->|Hne]; simpl.
  - by intros _.
  - intros H. destruct (IH H) as (Hs & Hh & Hc).
    rewrite app_cons, <- Hs. by destruct (Ascii.eqb_spec c ":").
Qed.

Lemma prefix_before_eq ds b x y :
  contains "=" ds = false -> ds +:+ b = x +:+ "=" +:+ y ->
  exists c, x = ds +:+ c.
Proof.
  revert x. induction ds as [|d ds IH]; intros x Hfree Heq; [by exists x|].
  change (contains "=" (String d ds))
    with (String.prefix "=" (String d ds) || contains "=" ds) in Hfree.
  apply orb_false_iff in Hfree as [Hp Hfree]. simpl in Hp.
  destruct (ascii_dec "=" d) as [<-|Hne]; [by destruct ds|].
  rewrite app_cons in Heq. destruct x as [|x0 x].
  - rewrite app_nil_l in Heq. by injection Heq as -> _.
  - rewrite app_cons in Heq. injection Heq as <- Heq.
    destruct (IH x Hfree Heq) as [c ->]. by exists c.
Qed.

Lemma record_cache_key_eq ds rid :
  record_cache_key ds rid
  = "record" +:+ ":" +:+ ("datasheet_id" +:+ "=" +:+ ds)
      +:+ ":" +:+ ("record_id" +:+ "=" +:+ rid).
Proof. reflexivity. Qed.

Lemma colons_record_key ds rid :
  colons ds = 0%nat -> colons rid = 0%nat ->
  colons (record_cache_key ds rid) = 2%nat.
Proof.
  intros Hd Hr. rewrite record_cache_key_eq, !colons_app, Hd, Hr. done.
Qed.

Ltac peel H t :=
  cbv in H;
  repeat (destruct t as [|? t]; cbv in H;
          [try discriminate H | first [discriminate H | injection H as _ H]]).

Ltac enumerate H2 H1 ds t :=
  cbv in H2;
  destruct ds as [|? ds];
  [ peel H1 t
  | cbv in H2;
    first [ discriminate H2
          | injection H2 as ? H2; subst; enumerate H2 H1 ds t ] ].

Lemma record_key_not_matched ds rid :
  contains ":" ds = false -> contains "=" ds = false ->
  contains ":" rid = false ->
  contains ("record:" +:+ ds +:+ ":" +:+ rid) (record_cache_key ds rid) = false
  /\ contains ("records:" +:+ ds) (record_cache_key ds rid) = false.
Proof.
  intros Hd%colons_free Heq Hr%colons_free.
  pose proof (colons_record_key ds rid Hd Hr) as Hk.
  assert (split_head (record_cache_key ds rid) = "record") as Hhead.
  { rewrite record_cache_key_eq. by apply split_head_at. }
  assert (split_tail (record_cache_key ds rid)
          = ("datasheet_id" +:+ "=" +:+ ds) +:+ ":"
              +:+ ("record_id" +:+ "=" +:+ rid)) as Htail.
  { rewrite record_cache_key_eq. by apply split_tail_at. }
  assert (colons ("datasheet_id" +:+ "=" +:+ ds) = 0%nat) as Hseg
    by (by rewrite !colons_app, Hd).
  split; apply not_true_is_false; intros (a & b & Hab)%contains_substring.
  - change ("record:" +:+ ds +:+ ":" +:+ rid)
      with ("record" +:+ ":" +:+ ds +:+ ":" +:+ rid) in Hab.
    assert (colons a = 0%nat /\ colons b = 0%nat) as [Ha Hb].
    { pose proof Hk as Hk'. rewrite Hab, !colons_app, Hd, Hr in Hk'.
      simpl in Hk'. lia. }
    rewrite !app_assoc_s in Hab.
    assert (split_head (record_cache_key ds rid) = a +:+ "record") as Hh.
    { rewrite Hab at 1. rewrite <- (app_assoc_s a "record").
      apply split_head_at. by rewrite colons_app, Ha. }
    rewrite Hhead in Hh.
    assert (a = "") as ->.
    { apply (f_equal String.length) in Hh. rewrite length_app_s in Hh.
      simpl in Hh. destruct a; [done|simpl in Hh; lia]. }
    assert (split_tail (record_cache_key ds rid)
            = ds +:+ ":" +:+ rid +:+ b) as Ht.
    { rewrite Hab at 1. rewrite app_nil_l.
      by apply split_tail_at. }
    rewrite Htail in Ht.
    apply (f_equal split_head) in Ht.
    rewrite !split_head_at in Ht by done.
    apply (f_equal String.length) in Ht. rewrite !length_app_s in Ht.
    simpl in Ht. lia.
  - change ("records:" +:+ ds) with ("records" +:+ ":" +:+ ds) in Hab.
    assert (colons a + colons b = 1)%nat as Hcount.
    { pose proof Hk as Hk'. rewrite Hab, !colons_app, Hd in Hk'.
      simpl in Hk'. lia. }
    destruct (Nat.eq_dec (colons a) 0) as [Ha|Ha].
    + rewrite !app_assoc_s in Hab.
      assert (split_head (record_cache_key ds rid) = a +:+ "records") as Hh.
      { rewrite Hab at 1. rewrite <- (app_assoc_s a "records").
        apply split_head_at. by rewrite colons_app, Ha. }
      rewrite Hhead in Hh.
      apply (f_equal String.length) in Hh. rewrite length_app_s in Hh.
      simpl in Hh. lia.
    + destruct (split_at_colon a Ha) as (Hsplit & Hh0 & Hca).
      assert (colons (split_tail a) = 0%nat) as Ht0 by lia.
      assert (colons b = 0%nat) as Hb by lia.
      set (h := split_head a) in *. set (t := split_tail a) in *.
      clearbody h t. subst a.
      rewrite !app_assoc_s in Hab.
      assert (split_tail (record_cache_key ds rid)
              = t +:+ "records" +:+ ":" +:+ ds +:+ b) as Ht.
      { rewrite Hab at 1. by apply split_tail_at. }
      rewrite Htail in Ht.
      assert (colons (t +:+ "records") = 0%nat) as Hseg'
        by (by rewrite colons_app, Ht0).
      rewrite <- (app_assoc_s t "records") in Ht.
      assert ("datasheet_id" +:+ "=" +:+ ds = t +:+ "records") as H1.
      { apply (f_equal split_head) in Ht.
        by rewrite !split_head_at in Ht by done. }
      assert ("record_id" +:+ "=" +:+ rid = ds +:+ b) as H2.
      { apply (f_equal split_tail) in Ht.
        by rewrite !split_tail_at in Ht by done. }
      symmetry in H2. apply prefix_before_eq in H2 as [c H2]; [|done].
      symmetry in H1. clear -H1 H2.
      enumerate H2 H1 ds t.
Qed.

End RecordKeyFacts.

Section StaleRecordFacts.
Context {U RecordT : Type} `{!Vika U RecordT} `{!VikaReads U RecordT}.

(** X14. The write handlers never invalidate the single-record cache:
    for identifiers without [:] and a datasheet identifier without [=],
    the entry that [get_record] stored for the record is still there after
    [update_record] and after [delete_record] of that very record, so an
    admitted read within five minutes of the store is answered from it. *)
Theorem write_keeps_record_cached now op datasheet_id record_id fields s u e :
  contains ":" datasheet_id = false ->
  contains "=" datasheet_id = false ->
  contains ":" record_id = false ->
  cache s !! record_cache_key datasheet_id record_id = Some e ->
  let key := record_cache_key datasheet_id record_id in
  let upd := update_record now op datasheet_id record_id fields s u in
  let del := delete_record now op datasheet_id record_id s u in
  cache (snd (fst upd)) !! key = Some e
  /\ cache (snd (fst del)) !! key = Some e
  /\ (forall now' op' t_read' t_store' u' s2,
        dependencies now' op' (snd (fst upd)) = (Ok tt, s2) ->
        (t_read' - timestamp e < 300)%Q ->
        data e <> JNone ->
        fst (get_record now' t_read' t_store' op' datasheet_id record_id
               (snd (fst upd)) u')
        = Ok (success_cached (data e) true)).
Proof.
  intros Hd Heq Hr He key upd del.
  destruct (record_key_not_matched datasheet_id record_id Hd Heq Hr)
    as [Hp1 Hp2]. fold key in Hp1, Hp2, He.
  assert (forall c : gmap string (entry json),
            clear_record_caches datasheet_id record_id c !! key = c !! key)
    as Hkeep.
  { intros c. by rewrite lookup_clear_record_caches, Hp1, Hp2. }
  assert (cache (snd (fst upd)) !! key = Some e) as Hupd.
  { subst upd. unfold update_record.
    destruct (dependencies_frame now op s) as (Hc & _).
    destruct (dependencies now op s) as [[[]|e0] s1]; cbn [fst snd] in *;
      [|by rewrite Hc].
    destruct (records_aupdate u _ _) as [[r1|e1] u1];
      cbn -[clear_record_caches]; by rewrite ?Hkeep, Hc. }
  split; [done|]. split.
  - subst del. unfold delete_record.
    destruct (dependencies_frame now op s) as (Hc & _).
    destruct (dependencies now op s) as [[[]|e0] s1]; cbn [fst snd] in *;
      [|by rewrite Hc].
    destruct (records_adelete u _ _) as [[r1|e1] u1];
      cbn -[clear_record_caches]; by rewrite ?Hkeep, Hc.
  - intros now' op' t_read' t_store' u' s2 Hdep Hfresh Hdata.
    unfold get_record. rewrite Hdep. fold key.
    destruct (dependencies_frame now' op' (snd (fst upd))) as (Hc & _).
    rewrite Hdep in Hc. cbn [snd] in Hc.
    rewrite (get_from_cache_fresh _ _ _ _ e); [|by rewrite Hc|done].
    by destruct (data e).
Qed.

End StaleRecordFacts.

Lemma write_keeps_record_cached_witness :
  contains ":" "dst1" = false
  /\ contains "=" "dst1" = false
  /\ contains ":" "rec1" = false
  /\ cache (snd (fst (update_record 1 "default" "dst1" "rec1"
                        [("Name", JStr "new")]
                        (with_cache
                           {[ record_cache_key "dst1" "rec1"
                              := Entry (JDict [("Name", JStr "old")]) 0 ]}
                           fresh_server) false)))
     !! record_cache_key "dst1" "rec1"
     = Some (Entry (JDict [("Name", JStr "old")]) 0).
Proof.
  assert (contains ":" "dst1" = false) as H1 by reflexivity.
  assert (contains "=" "dst1" = false) as H2 by reflexivity.
  assert (contains ":" "rec1" = false) as H3 by reflexivity.
  split; [exact H1|]. split; [exact H2|]. split; [exact H3|].
  apply (write_keeps_record_cached 1 "default" "dst1" "rec1"
           [("Name", JStr "new")] _ false _ H1 H2 H3).
  reflexivity.
Defined.
